(** * Winston-Lutz batch calculation and DVH constraint scoring of pymedphys

    Shallow embedding of
    - [lib/pymedphys/_experimental/streamlit/apps/wlutz/_calculation.py]
      (field/BB locator, algorithm dispatch, batch runner), and
    - [lib/pymedphys/_experimental/streamlit/apps/transfer_check.py]
      (constraint scorer and alias matching).

    Floating point values of the locator are modelled as [float]: a finite
    value (kept as an integer in a fixed unit, the claims only depend on
    equality and on being finite or NaN) or NaN.  Dose values of the
    scorer are exact rationals.  External collaborators (image decoding,
    field refinement, BB optimisation, the pylinac run, the DVH queries)
    are Section variables. *)

From Stdlib Require Import List String Ascii ZArith QArith Bool.
From Stdlib Require Import Permutation Lia DecimalString.
Import ListNotations.
Open Scope string_scope.
Open Scope list_scope.

(** ** Python values and exceptions *)

(** A Python / numpy float: finite or NaN. *)
Inductive float : Type :=
| Fl (z : Z)
| NaN.

Definition float_eq_dec (x y : float) : {x = y} + {x <> y}.
Proof. decide equality; apply Z.eq_dec. Defined.

(** Python's [==] on floats: NaN is unequal to everything, itself included. *)
Definition py_float_eqb (x y : float) : bool :=
  match x, y with
  | Fl a, Fl b => Z.eqb a b
  | _, _ => false
  end.



(** Float subtraction, NaN propagating. *)
Definition fsub (x y : float) : float :=
  match x, y with
  | Fl a, Fl b => Fl (a - b)
  | _, _ => NaN
  end.

(** The exceptions raised by the modelled code. *)
Inductive exn : Type :=
| KeyError (key : string)
| ValueError (msg : string)
| IndexError.

(** A computation that returns a value or raises. *)
Inductive except (A : Type) : Type :=
| Ok (a : A)
| Err (e : exn).
Arguments Ok {A} a.
Arguments Err {A} e.

Definition ebind {A B} (m : except A) (k : A -> except B) : except B :=
  match m with
  | Ok a => k a
  | Err e => Err e
  end.

Notation "x <-? m ;; k" := (ebind m (fun x => k))
  (at level 61, m at next level, right associativity).

(** Python's [dict[key]] on an association list (insertion order kept). *)
Fixpoint lookup {A} (k : string) (d : list (string * A)) : option A :=
  match d with
  | [] => None
  | (k', v) :: d' => if String.eqb k k' then Some v else lookup k d'
  end.

Definition getitem {A} (d : list (string * A)) (k : string) : except A :=
  match lookup k d with
  | Some v => Ok v
  | None => Err (KeyError k)
  end.

(** ** The field/BB locator ([_calculate_wlutz] and its algorithms) *)
Module Locator.

(** [(field_centre, field_rotation, bb_centre)] *)
Definition detection : Type := ((float * float) * float * (float * float))%type.

Definition nan_pair : float * float := (NaN, NaN).

(** The dictionary built by [_get_wlutz_input_parameters]. *)
Record wlutz_input_parameters {Img Field : Type} := {
  p_image : Img;
  p_field : Field;
  p_pymedphys_field_centre : float * float;
  p_field_rotation : float;
  p_bb_diameter : Z;
  p_edge_lengths : Z * Z;
  p_penumbra : Z
}.
Arguments wlutz_input_parameters : clear implicits.

Section Locator.

(** Decoded image (with its axes) and interpolated field. *)
Variables Img Field : Type.
(** [_load_image_field_interpolator] (image decode and interpolation). *)
Variable load_image_field_interpolator : string -> Img * Field.
(** [findfield.get_centre_of_mass] *)
Variable get_centre_of_mass : Img -> float * float.
(** [findfield.field_centre_and_rotation_refining] *)
Variable field_centre_and_rotation_refining :
  Field -> Z * Z -> Z -> float * float -> except ((float * float) * float).
(** [findbb.optimise_bb_centre] *)
Variable optimise_bb_centre :
  Field -> Z -> Z * Z -> Z -> float * float -> float -> except (float * float).
(** [pmp_pylinac_api.run_wlutz] for the installed pylinac version, giving
    its [field_centre] and [bb_centre]. *)
Variable run_wlutz :
  Field -> Z * Z -> Z -> float * float -> float ->
  except ((float * float) * (float * float)).

Definition params := wlutz_input_parameters Img Field.

Definition _get_pymedphys_field_centre_and_rotation
    (image_path : string) (edge_lengths : Z * Z) (penumbra : Z)
  : except ((float * float) * float) :=
  let '(image, field) := load_image_field_interpolator image_path in
  let initial_centre := get_centre_of_mass image in
  match field_centre_and_rotation_refining field edge_lengths penumbra
          initial_centre with
  | Ok r => Ok r
  | Err (ValueError _) => Ok (nan_pair, NaN)
  | Err e => Err e
  end.

Definition _get_wlutz_input_parameters
    (image_path : string) (bb_diameter : Z) (edge_lengths : Z * Z)
    (penumbra : Z) : except params :=
  let '(image, field) := load_image_field_interpolator image_path in
  fr <-? _get_pymedphys_field_centre_and_rotation image_path edge_lengths
           penumbra ;;
  let '(field_centre, field_rotation) := fr in
  Ok {| p_image := image; p_field := field;
        p_pymedphys_field_centre := field_centre;
        p_field_rotation := field_rotation;
        p_bb_diameter := bb_diameter; p_edge_lengths := edge_lengths;
        p_penumbra := penumbra |}.

Definition _pymedphys_wlutz_calculate (p : params) : except detection :=
  let field_centre := p_pymedphys_field_centre p in
  match optimise_bb_centre (p_field p) (p_bb_diameter p) (p_edge_lengths p)
          (p_penumbra p) field_centre (p_field_rotation p) with
  | Ok bb_centre => Ok (field_centre, p_field_rotation p, bb_centre)
  | Err (ValueError _) => Ok (field_centre, p_field_rotation p, nan_pair)
  | Err e => Err e
  end.

Definition _pylinac_wlutz_calculate (p : params) : except detection :=
  match run_wlutz (p_field p) (p_edge_lengths p) (p_penumbra p)
          (p_pymedphys_field_centre p) (p_field_rotation p) with
  | Ok (field_centre, bb_centre) =>
      Ok (field_centre, p_field_rotation p, bb_centre)
  | Err (ValueError _) => Ok (nan_pair, p_field_rotation p, nan_pair)
  | Err e => Err e
  end.

Definition ALGORITHM_FUNCTION_MAP : list (string * (params -> except detection)) :=
  [("PyMedPhys", _pymedphys_wlutz_calculate);
   ("PyLinac", _pylinac_wlutz_calculate)].

Definition _calculate_wlutz (image_path algorithm : string) (bb_diameter : Z)
    (edge_lengths : Z * Z) (penumbra : Z) : except detection :=
  p <-? _get_wlutz_input_parameters image_path bb_diameter edge_lengths
          penumbra ;;
  if py_float_eqb (p_field_rotation p) NaN then
    Ok (nan_pair, NaN, nan_pair)
  else
    calculate_function <-? getitem ALGORITHM_FUNCTION_MAP algorithm ;;
    calculate_function p.

End Locator.
End Locator.

(** ** The batch runner ([run_calculation], [get_results_for_image]) *)
Module Batch.

Definition RESULTS_DATA_COLUMNS : list string :=
  ["filepath"; "algorithm"; "diff_x"; "diff_y"; "field_centre_x";
   "field_centre_y"; "field_rotation"; "bb_centre_x"; "bb_centre_y"].

(** Columns of the dataset table besides [filepath]. *)
Definition META_COLUMNS : list string :=
  ["treatment"; "port"; "gantry"; "collimator"; "width"; "length"].

(** A row of the dataset table ([database_table]). *)
Record Meta := {
  filepath : string;
  treatment : string;
  port : string;
  gantry : Z;
  collimator : Z;
  width : Z;
  length : Z
}.

(** A row of the results table (the columns [RESULTS_DATA_COLUMNS]). *)
Record Res := {
  r_filepath : string;
  algorithm : string;
  diff_x : float;
  diff_y : float;
  field_centre_x : float;
  field_centre_y : float;
  field_rotation : float;
  bb_centre_x : float;
  bb_centre_y : float
}.

(** A row of the contextualised table: a result merged with the dataset row
    of the same [filepath]. *)
Definition CRow : Type := (Res * Meta)%type.

Definition meta_eq_dec (x y : Meta) : {x = y} + {x <> y}.
Proof. decide equality; first [apply Z.eq_dec | apply string_dec]. Defined.

Definition res_eq_dec (x y : Res) : {x = y} + {x <> y}.
Proof. decide equality; first [apply float_eq_dec | apply string_dec]. Defined.

Definition crow_eq_dec (x y : CRow) : {x = y} + {x <> y}.
Proof. decide equality; first [apply meta_eq_dec | apply res_eq_dec]. Defined.

(** The persisted [raw_results.csv]: its header and its rows, read back as
    they were written (the rows written by the runner carry the result
    columns and the dataset columns). *)
Record Persisted := {
  columns : list string;
  rows : list CRow
}.

(** [unique()] / [drop_duplicates()]: keep the first occurrence. *)
Fixpoint unique_aux {A} (dec : forall x y : A, {x = y} + {x <> y})
    (seen : list A) (l : list A) : list A :=
  match l with
  | [] => []
  | x :: l' =>
      if in_dec dec x seen then unique_aux dec seen l'
      else x :: unique_aux dec (x :: seen) l'
  end.

Definition unique (l : list string) : list string := unique_aux string_dec [] l.

Definition drop_duplicates (l : list CRow) : list CRow :=
  unique_aux crow_eq_dec [] l.

(** [results.merge(database_table, left_on="filepath", right_on="filepath")] *)
Definition merge (rs : list Res) (D : list Meta) : list CRow :=
  flat_map (fun r =>
    map (fun m => (r, m))
        (filter (fun m => String.eqb (filepath m) (r_filepath r)) D)) rs.

(** One call of the (cached) detection [_calculate_wlutz]:
    full image path, algorithm and edge lengths. *)
Definition Call : Type := (string * string * (Z * Z))%type.

(** Computations that may raise and that log the detection calls. *)
Definition M (A : Type) : Type := list Call -> except A * list Call.

Definition ret {A} (a : A) : M A := fun log => (Ok a, log).

Definition bind {A B} (m : M A) (k : A -> M B) : M B :=
  fun log =>
    match m log with
    | (Ok a, log') => k a log'
    | (Err e, log') => (Err e, log')
    end.

Definition lift {A} (m : except A) : M A := fun log => (m, log).

Notation "x <- m ;; k" := (bind m (fun x => k))
  (at level 61, m at next level, right associativity).

Fixpoint mapM {A B} (f : A -> M B) (l : list A) : M (list B) :=
  match l with
  | [] => ret []
  | x :: l' => y <- f x ;; ys <- mapM f l' ;; ret (y :: ys)
  end.

Definition _get_full_image_path (database_directory relative_image_path : string)
  : string := database_directory ++ "/" ++ relative_image_path.

Definition mk_result (relative_image_path algorithm : string)
    (d : Locator.detection) : Res :=
  let '(field_centre, field_rotation_calculated, bb_centre) := d in
  {| r_filepath := relative_image_path;
     algorithm := algorithm;
     diff_x := fsub (fst field_centre) (fst bb_centre);
     diff_y := fsub (snd field_centre) (snd bb_centre);
     field_centre_x := fst field_centre;
     field_centre_y := snd field_centre;
     field_rotation := field_rotation_calculated;
     bb_centre_x := fst bb_centre;
     bb_centre_y := snd bb_centre |}.

(** [previously_calculated_results.loc[mask][RESULTS_DATA_COLUMNS]] *)
Definition select_results (prev : Persisted) (p : string) : except (list Res) :=
  match find (fun c => negb (existsb (String.eqb c) (columns prev)))
             RESULTS_DATA_COLUMNS with
  | Some c => Err (KeyError c)
  | None =>
      Ok (map fst (filter (fun r => String.eqb (r_filepath (fst r)) p)
                          (rows prev)))
  end.

(** [set(selected_algorithms).issubset(results["algorithm"].unique())] *)
Definition already_calculated (selected_algorithms : list string)
    (results : list Res) : bool :=
  forallb (fun a => existsb (fun r => String.eqb (algorithm r) a) results)
          selected_algorithms.

Definition _collapse_column_to_single_value (values : list string)
    (column : string) : except string :=
  match unique values with
  | [v] => Ok v
  | _ => Err (ValueError ("Expected exactly one " ++ column ++ " per image"))
  end.

Definition working_table_check (results : list Res) (D : list Meta)
  : except unit :=
  let working_table := merge results D in
  _ <-? _collapse_column_to_single_value
          (map (fun r => treatment (snd r)) working_table) "treatment" ;;
  _ <-? _collapse_column_to_single_value
          (map (fun r => port (snd r)) working_table) "port" ;;
  Ok tt.

Definition row_at (D : list Meta) (i : nat) : except Meta :=
  match nth_error D i with
  | Some m => Ok m
  | None => Err IndexError
  end.

Section Batch.

(** The cached [_calculate_wlutz] (with its collaborators), and the
    parameters of the run. *)
Variable calc : string -> string -> Z -> Z * Z -> Z -> except Locator.detection.
Variable database_directory : string.
Variables bb_diameter penumbra : Z.

Definition calculate_wlutz (image_path algorithm : string) (edge_lengths : Z * Z)
  : M Locator.detection :=
  fun log => (calc image_path algorithm bb_diameter edge_lengths penumbra,
              log ++ [(image_path, algorithm, edge_lengths)]).

Definition get_results_for_image (relative_image_path : string)
    (selected_algorithms : list string) (edge_lengths : Z * Z)
  : M (list Res) :=
  let full_image_path :=
    _get_full_image_path database_directory relative_image_path in
  results_data <- mapM (fun algorithm =>
      d <- calculate_wlutz full_image_path algorithm edge_lengths ;;
      ret (mk_result relative_image_path algorithm d)) selected_algorithms ;;
  match results_data with
  | [] => lift (Err (ValueError "Unexpected columns"))
  | _ => ret results_data
  end.

(** The body of the main loop of [run_calculation], at position [i] with
    image path [relative_image_path]. *)
Definition process_row (prev : option Persisted) (D : list Meta)
    (selected_algorithms : list string) (i : nat) (relative_image_path : string)
  : M (list Res) :=
  let recompute :=
    row <- lift (row_at D i) ;;
    get_results_for_image relative_image_path selected_algorithms
      (width row, length row) in
  results <- match prev with
             | Some f =>
                 rs <- lift (select_results f relative_image_path) ;;
                 if already_calculated selected_algorithms rs then ret rs
                 else recompute
             | None => recompute
             end ;;
  _ <- lift (working_table_check results D) ;;
  ret results.

Fixpoint main_loop (prev : option Persisted) (D : list Meta)
    (selected_algorithms : list string) (i : nat) (paths : list string)
    (collated : list Res) : M (list Res) :=
  match paths with
  | [] => ret collated
  | p :: paths' =>
      results <- process_row prev D selected_algorithms i p ;;
      main_loop prev D selected_algorithms (S i) paths' (collated ++ results)
  end.

(** [run_calculation] up to the overwrite of [raw_results.csv]; the value
    is the written file.  Progress reporting, the charts and the statistics
    written afterwards are presentation and are not modelled. *)
Definition run_calculation (prev : option Persisted) (D : list Meta)
    (selected_algorithms : list string) : M Persisted :=
  collated <- main_loop prev D selected_algorithms 0
                (rev (map filepath D)) [] ;;
  match D with
  | [] => lift (Err (KeyError "filepath"))
  | _ =>
      let contextualised := merge collated D in
      let ctx_columns := RESULTS_DATA_COLUMNS ++ META_COLUMNS in
      let prev_rows := match prev with Some f => rows f | None => [] end in
      let prev_columns := match prev with Some f => columns f | None => [] end in
      ret {| columns := ctx_columns ++
               filter (fun c => negb (existsb (String.eqb c) ctx_columns))
                      prev_columns;
             rows := drop_duplicates (contextualised ++ prev_rows) |}
  end.

End Batch.
End Batch.

(** ** The constraint scorer ([transfer_check.py]) *)
Module Scorer.

Local Open Scope Q_scope.

(** A cell of the scored table: a number or the ["-"] filler. *)
Inductive cell : Type :=
| Num (q : Q)
| Dash.

(** A row of [structure_df] / [constraints_df]; [Type_] is the column ["Type"]. *)
Record ConstraintRow := {
  Structure : string;
  Structure_Key : string;
  Type_ : string;
  Dose : cell;
  Volume : cell;
  Actual_Dose : cell;
  Actual_Volume : cell;
  Score : Q
}.

(** The DVH of one ROI ([dvh_calcs[roi]]): its mean, max and volume, and
    its [dose_constraint] / [volume_constraint] queries. *)
Record DVH := {
  dvh_mean : Q;
  dvh_max : Q;
  dvh_volume : Q;
  dose_constraint : Q -> Q;         (** dose at a relative volume *)
  dose_constraint_cm3 : Q -> Q;     (** dose at an absolute volume *)
  volume_constraint_Gy : Q -> Q     (** volume receiving a dose *)
}.

(** A constraint of [CONSTRAINTS[structure]]: the placeholder [" "] or
    threshold tuples [(dose, volume)]; Mean and Max read only the first
    component. *)
Inductive entry : Type :=
| Placeholder
| Thresholds (ts : list (Q * Q)).

Definition Qsum (l : list Q) : Q := fold_right Qplus 0 l.

(** [Series.mean()] *)
Definition Qmean (l : list Q) : Q := Qsum l / inject_Z (Z.of_nat (List.length l)).

Definition constraint_rows (roi structure : string) (structure_dvh : DVH)
    (type : string) (constraint : entry) : list ConstraintRow :=
  match constraint with
  | Placeholder => []
  | Thresholds ts =>
      if String.eqb type "Mean" then
        map (fun t =>
          {| Structure := roi; Structure_Key := structure; Type_ := "Mean";
             Dose := Num (fst t); Volume := Dash;
             Actual_Dose := Num (dvh_mean structure_dvh); Actual_Volume := Dash;
             Score := fst t - dvh_mean structure_dvh |}) ts
      else if String.eqb type "Max" then
        map (fun t =>
          {| Structure := roi; Structure_Key := structure; Type_ := "Max";
             Dose := Num (fst t); Volume := Dash;
             Actual_Dose := Num (dvh_max structure_dvh); Actual_Volume := Dash;
             Score := fst t - dvh_max structure_dvh |}) ts
      else if String.eqb type "V%" then
        map (fun t =>
          let dose_c := fst t in
          let volume_c := snd t * 100 in
          let actual_dose := dose_constraint structure_dvh volume_c in
          let actual_volume :=
            (volume_constraint_Gy structure_dvh dose_c / dvh_volume structure_dvh)
            * 100 in
          {| Structure := roi; Structure_Key := structure; Type_ := "V%";
             Dose := Num dose_c; Volume := Num volume_c;
             Actual_Dose := Num actual_dose; Actual_Volume := Num actual_volume;
             Score := (dose_c - actual_dose) + (volume_c - actual_volume) |}) ts
      else if String.eqb type "D%" then
        map (fun t =>
          let dose_c := fst t in
          let volume_c := snd t in
          let actual_dose := dose_constraint_cm3 structure_dvh volume_c in
          let actual_volume :=
            (volume_constraint_Gy structure_dvh dose_c / dvh_volume structure_dvh)
            * 100 in
          {| Structure := roi; Structure_Key := structure; Type_ := "D%";
             Dose := Num dose_c; Volume := Num volume_c;
             Actual_Dose := Num actual_dose; Actual_Volume := Num actual_volume;
             Score := (dose_c - actual_dose) +
                      ((volume_c / dvh_volume structure_dvh) * 100 - actual_volume)
          |}) ts
      else []
  end.

Definition calculate_average_OAR_score (structure_df : list ConstraintRow)
  : except (list ConstraintRow) :=
  match structure_df with
  | [] => Err IndexError     (** [structure_df.iloc[0]] on an empty frame *)
  | r0 :: _ =>
      Ok (structure_df ++
          [{| Structure := Structure r0; Structure_Key := Structure_Key r0;
              Type_ := "Average Score"; Dose := Dash; Volume := Dash;
              Actual_Dose := Dash; Actual_Volume := Dash;
              Score := Qmean (map Score structure_df) |}])
  end.

Definition compare_structure_with_constraints (roi structure : string)
    (dvh_calcs : list (string * DVH))
    (constraints : list (string * list (string * entry)))
  : except (list ConstraintRow) :=
  structure_constraints <-? getitem constraints structure ;;
  structure_dvh <-? getitem dvh_calcs roi ;;
  let structure_df :=
    flat_map (fun tc => constraint_rows roi structure structure_dvh (fst tc) (snd tc))
             structure_constraints in
  calculate_average_OAR_score structure_df.

(** [calculate_total_score] on a [constraints_df] that has the table's
    columns, given by its rows.  The column-less [pd.DataFrame()] that
    [main] starts from is handled by
    [ScorerFrame.calculate_total_score_frame], which raises [KeyError]. *)
Definition calculate_total_score (constraints_df : list ConstraintRow)
  : list ConstraintRow :=
  constraints_df ++
  [{| Structure := "Total Patient"; Structure_Key := "Total Patient";
      Type_ := "Total Score"; Dose := Dash; Volume := Dash;
      Actual_Dose := Dash; Actual_Volume := Dash;
      Score := Qsum (map Score (filter (fun r => String.eqb (Type_ r) "Average Score")
                                       constraints_df)) |}].

(** [str.lower()] on ASCII letters. *)
Definition lower_ascii (c : ascii) : ascii :=
  let n := nat_of_ascii c in
  if (65 <=? n)%nat && (n <=? 90)%nat then ascii_of_nat (n + 32) else c.

Fixpoint py_lower (s : string) : string :=
  match s with
  | EmptyString => EmptyString
  | String c s' => String (lower_ascii c) (py_lower s')
  end.

Fixpoint lstrip_spaces (s : string) : string :=
  match s with
  | String " " s' => lstrip_spaces s'
  | _ => s
  end.

Fixpoint rstrip_spaces (s : string) : string :=
  match s with
  | EmptyString => EmptyString
  | String c s' =>
      let r := rstrip_spaces s' in
      if Ascii.eqb c " " && String.eqb r "" then "" else String c r
  end.

(** [str.strip(" ")] *)
Definition py_strip_spaces (s : string) : string := rstrip_spaces (lstrip_spaces s).

(** [roi.lower().strip(" ") in ALIASES[structure].iloc[0]] *)
Definition alias_match (roi : string) (aliases : list string) : bool :=
  existsb (String.eqb (py_strip_spaces (py_lower roi))) aliases.

Section Main.

Variable dvh_calcs : list (string * DVH).
Variable ALIASES : list (string * list string).
Variable CONSTRAINTS : list (string * list (string * entry)).

(** [for structure in ALIASES.keys(): ...] for one ROI. *)
Fixpoint score_structures (aliases : list (string * list string)) (roi : string)
    (constraints_df : list ConstraintRow) : except (list ConstraintRow) :=
  match aliases with
  | [] => Ok constraints_df
  | (structure, al) :: aliases' =>
      if alias_match roi al then
        structure_df <-? compare_structure_with_constraints roi structure
                           dvh_calcs CONSTRAINTS ;;
        score_structures aliases' roi (constraints_df ++ structure_df)
      else score_structures aliases' roi constraints_df
  end.

(** [for roi in rois: ...] *)
Fixpoint score_rois (rois : list string) (constraints_df : list ConstraintRow)
  : except (list ConstraintRow) :=
  match rois with
  | [] => Ok constraints_df
  | roi :: rois' =>
      df <-? score_structures ALIASES roi constraints_df ;;
      score_rois rois' df
  end.

(** The constraint check of [main] on the rows of [constraints_df]: score
    every ROI of [dvh_calcs], then append the total score.  This is [main]
    only once some block has been concatenated to [constraints_df];
    [ScorerFrame.score_main_frame] is [main] itself, including the
    [KeyError] raised when no ROI matched. *)
Definition score_main : except (list ConstraintRow) :=
  constraints_df <-? score_rois (map fst dvh_calcs) [] ;;
  Ok (calculate_total_score constraints_df).

(** The [(roi, structure)] pairs for which the nested loops call
    [compare_structure_with_constraints], in order. *)
Definition matched_pairs (rois : list string) : list (string * string) :=
  flat_map (fun roi =>
    flat_map (fun sa => if alias_match roi (snd sa) then [(roi, fst sa)] else [])
             ALIASES) rois.

End Main.
(** The shape of one [structure_df] returned by
    [compare_structure_with_constraints roi structure]: its constraint rows
    followed by one ["Average Score"] row carrying their mean score. *)
Definition scored_block (pair : string * string) (block : list ConstraintRow)
  : Prop :=
  exists rows avg,
    block = rows ++ [avg] /\ rows <> [] /\
    Type_ avg = "Average Score" /\
    Structure avg = fst pair /\ Structure_Key avg = snd pair /\
    Score avg = Qmean (map Score rows) /\
    Forall (fun r => Type_ r <> "Average Score" /\ Type_ r <> "Total Score") rows.

End Scorer.

(** [constraints_df] built by folding [compare_structure_with_constraints]
    over a list of [(roi, structure)] pairs (used to restate the nested
    loops of [main] over [Scorer.matched_pairs]). *)
Fixpoint score_pairs (dvh_calcs : list (string * Scorer.DVH))
    (CONSTRAINTS : list (string * list (string * Scorer.entry)))
    (pairs : list (string * string)) (constraints_df : list Scorer.ConstraintRow)
  : except (list Scorer.ConstraintRow) :=
  match pairs with
  | [] => Ok constraints_df
  | (roi, structure) :: pairs' =>
      structure_df <-? Scorer.compare_structure_with_constraints roi structure
                         dvh_calcs CONSTRAINTS ;;
      score_pairs dvh_calcs CONSTRAINTS pairs' (constraints_df ++ structure_df)
  end.


(** ** The transfer check's page steps ([transfer_check.py]) *)
Module TransferCheck.
Local Open Scope string_scope.

(** Streamlit output, in the order the page shows it. *)
Inductive st_msg : Type :=
| st_subheader (s : string)
| st_success (s : string)
| st_error (s : string)
| st_write (args : list string).

(** The exceptions these steps raise or catch. *)
Inductive texn : Type :=
| TKeyError (key : string)
| TIndexError
| TTypeError
| TValueError
| TAttributeError
| TUnboundLocalError (name : string).

Inductive result (A : Type) : Type :=
| ROk (a : A)
| RErr (e : texn).
Arguments ROk {A} a.
Arguments RErr {A} e.

Definition rbind {A B} (m : result A) (k : A -> result B) : result B :=
  match m with
  | ROk a => k a
  | RErr e => RErr e
  end.

(** Page computations: they show messages and may raise. *)
Definition UI (A : Type) : Type := list st_msg -> result A * list st_msg.

Definition ui_ret {A} (a : A) : UI A := fun out => (ROk a, out).

Definition ui_bind {A B} (m : UI A) (k : A -> UI B) : UI B :=
  fun out =>
    match m out with
    | (ROk a, out') => k a out'
    | (RErr e, out') => (RErr e, out')
    end.

Definition ui_lift {A} (r : result A) : UI A := fun out => (r, out).

Definition emit (m : st_msg) : UI unit := fun out => (ROk tt, (out ++ [m])%list).

Notation "x <-ui m ;; k" := (ui_bind m (fun x => k))
  (at level 61, m at next level, right associativity).

(** [needle in s] on strings. *)
Fixpoint py_contains (needle s : string) : bool :=
  String.prefix needle s ||
  match s with
  | EmptyString => false
  | String _ s' => py_contains needle s'
  end.

(** [d[k] = v] on a dict: an existing key keeps its place, a new key is
    appended. *)
Fixpoint dict_set {A} (k : string) (v : A) (d : list (string * A))
  : list (string * A) :=
  match d with
  | [] => [(k, v)]
  | (k', v') :: d' =>
      if String.eqb k k' then (k, v) :: d' else (k', v') :: dict_set k v d'
  end.

(** *** [get_patient_files] *)
Section Files.

(** An uploaded file and its [name]. *)
Variable UploadedFile : Type.
Variable name : UploadedFile -> string.

(** The [if "RP" in name ... elif ...] chain: the key a file is stored
    under, if any. *)
Definition patient_file_key (n : string) : option string :=
  if py_contains "RP" n then Some "rp"
  else if py_contains "RD" n then Some "rd"
  else if py_contains "RS" n then Some "rs"
  else if py_contains "CT" n then Some "ct"
  else None.

Definition get_patient_files (dicomFiles : list UploadedFile)
  : list (string * UploadedFile) :=
  fold_left (fun files dicomFile =>
    match patient_file_key (name dicomFile) with
    | Some k => dict_set k dicomFile files
    | None => files
    end) dicomFiles [].

End Files.

(** *** The Mosaiq and DICOM tables *)

(** A database cell that may be [None] or a number (NaN included). *)
Inductive pyval : Type :=
| PyNone
| PyNum (x : float).

(** A row of [mosaiq_table]; [m_dob] is [str()] of its [dob] value. *)
Record MosaiqRow := {
  m_first_name : string;
  m_last_name : string;
  m_mrn : string;
  m_dob : string;
  m_create_id : pyval;
  m_site_setup_status : Z;
  m_site_status : Z;
  m_site_version : Z;
  m_site_setup_version : Z;
  m_field_version : Z;
  m_site : string;
  m_field_name : string;
  m_field_label : string;
  m_field_approval : pyval;
  m_fraction_pattern : string;
  m_notes : string
}.

(** A row of [dicom_table]. *)
Record DicomRow := {
  d_first_name : string;
  d_last_name : string;
  d_mrn : string;
  d_dob : string;
  d_field_label : string;
  d_field_name : string;
  d_rx : string
}.

(** A table with a default index is a list (label [i] is position [i]);
    after [sort_values] or [drop] a table keeps its labels, so it is a
    list of [(label, row)]. *)
Definition enumerate {A} (l : list A) : list (nat * A) :=
  combine (seq 0 (List.length l)) l.

(** [t.loc[0]] on a labelled table. *)
Definition loc0_labelled {A} (t : list (nat * A)) : result A :=
  match find (fun ir => Nat.eqb (fst ir) 0) t with
  | Some ir => ROk (snd ir)
  | None => RErr (TKeyError "0")
  end.

(** [t.loc[0]] on a table with a default index. *)
Definition loc0 {A} (t : list A) : result A :=
  match t with
  | r :: _ => ROk r
  | [] => RErr (TKeyError "0")
  end.

(** [s[a:b]] for [0 <= a <= b]. *)
Definition py_slice (s : string) (a b : nat) : string := substring a (b - a) s.

(** [column == value] where [value] may be [None] (then no row matches). *)
Definition opt_eqb (s : string) (o : option string) : bool :=
  match o with
  | Some t => String.eqb s t
  | None => false
  end.

Section Mosaiq.

(** [sort_values(by=["field_label"])]: numpy's quicksort, which leaves the
    order of equal labels unspecified. *)
Variable sort_values_by_field_label :
  list (nat * MosaiqRow) -> list (nat * MosaiqRow).

Definition drop_irrelevant_mosaiq_fields (dicom_table : list (nat * DicomRow))
    (mosaiq_table : list MosaiqRow) : list (nat * MosaiqRow) :=
  let index :=
    flat_map (fun j =>
      flat_map (fun ir => if String.eqb (m_field_label (snd ir)) j then [fst ir] else [])
               (enumerate mosaiq_table))
      (map (fun ir => d_field_label (snd ir)) dicom_table) in
  let remove :=
    filter (fun i => negb (existsb (Nat.eqb i) index))
           (map fst (enumerate mosaiq_table)) in
  let kept :=
    filter (fun ir => negb (existsb (Nat.eqb (fst ir)) remove))
           (enumerate mosaiq_table) in
  sort_values_by_field_label kept.

End Mosaiq.

(** The filter, then [reset_index(drop=True)]. *)
Definition limit_mosaiq_info_to_current_versions
    (mosaiq_table : list (nat * MosaiqRow)) : list MosaiqRow :=
  map snd (filter (fun ir => Z.eqb (m_site_version (snd ir)) 0 &&
                             Z.eqb (m_site_setup_version (snd ir)) 0 &&
                             Z.eqb (m_field_version (snd ir)) 0) mosaiq_table).

(** *** [verify_basic_patient_info] *)
Definition verify_basic_patient_info (dicom_table : list (nat * DicomRow))
    (mosaiq_table : list MosaiqRow) (mrn : string) : UI unit :=
  _ <-ui emit (st_subheader "Patient:") ;;
  d0 <-ui ui_lift (loc0_labelled dicom_table) ;;
  let dicom_name := d_first_name d0 ++ " " ++ d_last_name d0 in
  m0 <-ui ui_lift (loc0 mosaiq_table) ;;
  let mosaiq_name := m_first_name m0 ++ " " ++ m_last_name m0 in
  _ <-ui emit (if String.eqb dicom_name mosaiq_name
               then st_success ("Name: " ++ dicom_name)
               else st_error ("Name: " ++ dicom_name)) ;;
  _ <-ui emit (if String.eqb mrn (m_mrn m0)
               then st_success ("MRN: " ++ mrn)
               else st_error ("MRN: " ++ mrn)) ;;
  let DOB := py_slice (m_dob m0) 0 10 in
  let dicom_DOB := d_dob d0 in
  emit (if String.eqb DOB (py_slice dicom_DOB 0 4 ++ "-" ++ py_slice dicom_DOB 4 6
                           ++ "-" ++ py_slice dicom_DOB 6 8)
        then st_success ("DOB: " ++ DOB)
        else st_error ("DOB: " ++ DOB)).

(** *** Approvals *)

(** [str(n)] for an integer. *)
Definition py_str_int (z : Z) : string := NilZero.string_of_int (Z.to_int z).

(** [int(v)]: [None] raises [TypeError], NaN raises [ValueError]. *)
Definition py_int (v : pyval) : result Z :=
  match v with
  | PyNone => RErr TTypeError
  | PyNum (Fl z) => ROk z
  | PyNum NaN => RErr TValueError
  end.

(** [except (TypeError, ValueError, AttributeError)] *)
Definition caught (e : texn) : bool :=
  match e with
  | TTypeError | TValueError | TAttributeError => true
  | _ => false
  end.

(** The value held by [site_initials]: the rows returned by
    [get_staff_initials], or the string [""] set by the handler. *)
Inductive initials : Type :=
| Rows (rs : list (list string))
| Text (s : string).

(** [x[0][0]] *)
Definition first_of_first (si : initials) : result string :=
  match si with
  | Rows ((x :: _) :: _) => ROk x
  | Rows _ => RErr TIndexError
  | Text (String c _) => ROk (String c EmptyString)
  | Text EmptyString => RErr TIndexError
  end.

Fixpoint lookupZ {A} (k : Z) (d : list (Z * A)) : option A :=
  match d with
  | [] => None
  | (k', v) :: d' => if Z.eqb k k' then Some v else lookupZ k d'
  end.

Section Staff.

(** [get_staff_initials(connection, staff_id)] *)
Variable get_staff_initials : string -> result (list (list string)).
(** [SITE_CONSTANTS] *)
Variable SITE_CONSTANTS : list (Z * string).

(** The [try] block of [check_site_approval]. *)
Definition site_initials_of (create_id : pyval) : result initials :=
  match rbind (py_int create_id) (fun z => get_staff_initials (py_str_int z)) with
  | ROk rs => ROk (Rows rs)
  | RErr e => if caught e then ROk (Text "") else RErr e
  end.

Definition check_site_approval (mosaiq_table : list MosaiqRow) : UI unit :=
  _ <-ui emit (st_subheader "Approval Status:") ;;
  m0 <-ui ui_lift (loc0 mosaiq_table) ;;
  (* [None] while [site_initials] is unbound *)
  site_initials <-ui ui_lift (match m_create_id m0 with
                              | PyNone => ROk None
                              | v => rbind (site_initials_of v) (fun si => ROk (Some si))
                              end) ;;
  let setup := map m_site_setup_status mosaiq_table in
  _ <-ui (if forallb (fun i => Z.eqb i 5) setup
          then emit (st_success "Site Setup Approved")
          else match find (fun i => negb (Z.eqb i 5)) setup with
               | Some i =>
                   c <-ui ui_lift (match lookupZ i SITE_CONSTANTS with
                                   | Some c => ROk c
                                   | None => RErr (TKeyError (py_str_int i))
                                   end) ;;
                   emit (st_error ("Site Setup " ++ c))
               | None => ui_ret tt
               end) ;;
  if forallb (fun i => Z.eqb i 5) (map m_site_status mosaiq_table) then
    si <-ui ui_lift (match site_initials with
                     | Some si => ROk si
                     | None => RErr (TUnboundLocalError "site_initials")
                     end) ;;
    x <-ui ui_lift (first_of_first si) ;;
    emit (st_success ("RX Approved by " ++ x))
  else emit (st_error "RX Approval Pending").

Definition check_for_field_approval (mosaiq_table : list MosaiqRow)
    (field_selection : option string) : UI unit :=
  let attempt :=
    rbind (match map m_field_approval
                   (filter (fun r => opt_eqb (m_field_name r) field_selection)
                           mosaiq_table) with
           | v :: _ => ROk v
           | [] => RErr TIndexError
           end) (fun field_approval_id =>
    rbind (py_int field_approval_id) (fun z =>
    rbind (get_staff_initials (py_str_int z)) (fun field_approval_initials =>
    first_of_first (Rows field_approval_initials)))) in
  match attempt with
  | ROk x => emit (st_write ["**Field Approved by: **"; x])
  | RErr e =>
      if caught e then emit (st_write ["This field is not approved."])
      else ui_lift (RErr e)
  end.

End Staff.

(** *** [select_field_for_comparison] *)

(** [st.radio(label, options)]: the option the user picks ([None] when
    there is no option). *)
Definition radio {A} (options : list A) (choice : nat) : option A :=
  nth_error options choice.

(** [s.values[0]] *)
Definition values0 {A} (l : list A) : result A :=
  match l with
  | x :: _ => ROk x
  | [] => RErr TIndexError
  end.

Definition select_field_for_comparison (dicom_table : list (nat * DicomRow))
    (mosaiq_table : list MosaiqRow) (rx_choice field_choice : nat)
  : result (option string * list string * string) :=
  let rx_selection := radio (Batch.unique (map m_site mosaiq_table)) rx_choice in
  let rx_fields :=
    map m_field_name (filter (fun r => opt_eqb (m_site r) rx_selection) mosaiq_table) in
  let field_selection := radio rx_fields field_choice in
  let selected_label :=
    map m_field_label
        (filter (fun r => opt_eqb (m_field_name r) field_selection) mosaiq_table) in
  rbind (values0 selected_label) (fun label0 =>
  rbind (values0 (map (fun ir => d_field_name (snd ir))
                      (filter (fun ir => String.eqb (d_field_label (snd ir)) label0)
                              dicom_table))) (fun dicom_field_selection =>
  ROk (field_selection, selected_label, dicom_field_selection))).

(** *** The alias table ([ALIASES.csv]) *)

(** [s.split(",")] *)
Fixpoint py_split_comma (s : string) : list string :=
  match s with
  | EmptyString => [EmptyString]
  | String c s' =>
      let parts := py_split_comma s' in
      if Ascii.eqb c "," then EmptyString :: parts
      else match parts with
           | p :: ps => String c p :: ps
           | [] => [String c EmptyString]
           end
  end.

(** [s.replace("'", "")] *)
Fixpoint remove_quotes (s : string) : string :=
  match s with
  | EmptyString => EmptyString
  | String c s' =>
      if Ascii.eqb c "'" then remove_quotes s' else String c (remove_quotes s')
  end.

(** One cell of the loop of [get_structure_aliases]:
    [cell[1:-1].split(",")], each item with its quotes removed and
    stripped of spaces. *)
Definition parse_alias_cell (cell : string) : list string :=
  map (fun item => Scorer.py_strip_spaces (remove_quotes item))
      (py_split_comma (py_slice cell 1 (String.length cell - 1))).

(** [get_structure_aliases]: the columns of [ALIASES.csv] (structure key
    and the text of its first cell), each cell parsed to its alias list. *)
Definition get_structure_aliases (alias_csv : list (string * string))
  : list (string * list string) :=
  map (fun kc => (fst kc, parse_alias_cell (snd kc))) alias_csv.

Definition hex_digit (n : nat) : ascii :=
  ascii_of_nat (if (n <? 10)%nat then 48 + n else 87 + n).

(** One character of [repr(s)] quoted with [q] (ASCII; other bytes are
    kept, as for printable non-ASCII characters). *)
Definition py_char_repr (q c : ascii) : string :=
  let n := nat_of_ascii c in
  if Ascii.eqb c "\" then "\\"
  else if Ascii.eqb c q then String "\" (String q EmptyString)
  else if (n =? 9)%nat then "\t"
  else if (n =? 10)%nat then "\n"
  else if (n =? 13)%nat then "\r"
  else if (n <? 32)%nat || (n =? 127)%nat then
    String "\" (String "x" (String (hex_digit (n / 16))
                               (String (hex_digit (n mod 16)) EmptyString)))
  else String c EmptyString.

Fixpoint py_repr_body (q : ascii) (s : string) : string :=
  match s with
  | EmptyString => EmptyString
  | String c s' => py_char_repr q c ++ py_repr_body q s'
  end.

(** [repr(s)]: single quotes, unless [s] has a single quote and no double
    quote. *)
Definition py_str_repr (s : string) : string :=
  let dq := ascii_of_nat 34 in
  let q := if py_contains "'" s && negb (py_contains (String dq EmptyString) s)
           then dq else "'"%char in
  String q (py_repr_body q s ++ String q EmptyString).

(** [str(l)] for a list of strings. *)
Definition py_list_repr (l : list string) : string :=
  "[" ++ String.concat ", " (map py_str_repr l) ++ "]".

(** Alias text that [repr] writes as it is and that [split(",")] and
    [replace("'", "")] leave whole: printable ASCII other than the comma,
    the single quote and the backslash. *)
Definition plain_alias_char (c : ascii) : bool :=
  let n := nat_of_ascii c in
  (32 <=? n)%nat && (n <=? 126)%nat && negb (Ascii.eqb c ",") &&
  negb (Ascii.eqb c "'") && negb (Ascii.eqb c "\").

Fixpoint plain_alias (s : string) : bool :=
  match s with
  | EmptyString => true
  | String c s' => plain_alias_char c && plain_alias s'
  end.

(** [alias_df.to_csv(...)]: every cell is written as [str()] of its list;
    the CSV layer gives these texts back to [read_csv]. *)
Definition alias_csv_of (alias_df : list (string * list string))
  : list (string * string) :=
  map (fun kc => (fst kc, py_list_repr (snd kc))) alias_df.



End TransferCheck.

(** ** [constraints_df] as a frame ([main] of [transfer_check.py]) *)
Module ScorerFrame.
Import Scorer.

(** [None] is the initial [pd.DataFrame()], which has no columns;
    [pd.concat] with a scored block gives a frame with the block's
    columns. *)
Definition frame : Type := option (list ConstraintRow).

Definition concat_frame (df : frame) (block : list ConstraintRow) : frame :=
  Some (match df with None => block | Some rows => rows ++ block end).

Section MainFrame.

Variable dvh_calcs : list (string * DVH).
Variable ALIASES : list (string * list string).
Variable CONSTRAINTS : list (string * list (string * entry)).

Fixpoint score_structures_frame (aliases : list (string * list string))
    (roi : string) (constraints_df : frame) : except frame :=
  match aliases with
  | [] => Ok constraints_df
  | (structure, al) :: aliases' =>
      if alias_match roi al then
        structure_df <-? compare_structure_with_constraints roi structure
                           dvh_calcs CONSTRAINTS ;;
        score_structures_frame aliases' roi (concat_frame constraints_df structure_df)
      else score_structures_frame aliases' roi constraints_df
  end.

Fixpoint score_rois_frame (rois : list string) (constraints_df : frame)
  : except frame :=
  match rois with
  | [] => Ok constraints_df
  | roi :: rois' =>
      df <-? score_structures_frame ALIASES roi constraints_df ;;
      score_rois_frame rois' df
  end.

(** [calculate_total_score]: [constraints_df["Type"]] raises [KeyError]
    on a frame without columns. *)
Definition calculate_total_score_frame (constraints_df : frame)
  : except (list ConstraintRow) :=
  match constraints_df with
  | None => Err (KeyError "Type")
  | Some rows => Ok (calculate_total_score rows)
  end.

Definition score_main_frame : except (list ConstraintRow) :=
  constraints_df <-? score_rois_frame (map fst dvh_calcs) None ;;
  calculate_total_score_frame constraints_df.

End MainFrame.
End ScorerFrame.

(** ** Concrete inputs *)
Module Examples.

(** Collaborators of the locator: field refinement converges to (1, 2)
    with rotation 0, BB optimisation raises [ValueError], the pylinac run
    raises [ValueError]. *)
Definition ex_load (_ : string) : unit * unit := (tt, tt).
Definition ex_centre_of_mass (_ : unit) : float * float := (Fl 0, Fl 0).
Definition ex_refining (_ : unit) (_ : Z * Z) (_ : Z) (_ : float * float)
  : except ((float * float) * float) := Ok ((Fl 1, Fl 2), Fl 0).
Definition ex_optimise_bb (_ : unit) (_ : Z) (_ : Z * Z) (_ : Z)
    (_ : float * float) (_ : float) : except (float * float) :=
  Err (ValueError "BB not found").
Definition ex_run_wlutz (_ : unit) (_ : Z * Z) (_ : Z) (_ : float * float)
    (_ : float) : except ((float * float) * (float * float)) :=
  Err (ValueError "pylinac failed").

Definition ex_calculate_wlutz :=
  Locator._calculate_wlutz unit unit ex_load ex_centre_of_mass ex_refining
    ex_optimise_bb ex_run_wlutz.

(** A detection that always succeeds; the field centre x records the
    edge-length width it was given. *)
Definition ex_calc (_ _ : string) (_ : Z) (e : Z * Z) (_ : Z)
  : except Locator.detection :=
  Ok ((Fl (fst e), Fl 0), Fl 0, (Fl 0, Fl 0)).

Definition ex_row (p : string) (g w : Z) : Batch.Meta :=
  {| Batch.filepath := p; Batch.treatment := "T1"; Batch.port := "P1";
     Batch.gantry := g; Batch.collimator := 0; Batch.width := w;
     Batch.length := w |}.

(** A persisted file from an earlier session: a PyMedPhys result for
    [a.jpg] computed with other parameters, recorded with gantry 90. *)
Definition ex_stale : Batch.Res :=
  Batch.mk_result "a.jpg" "PyMedPhys" ((Fl 5, Fl 0), Fl 0, (Fl 0, Fl 0)).

Definition ex_prev : Batch.Persisted :=
  {| Batch.columns := Batch.RESULTS_DATA_COLUMNS ++ Batch.META_COLUMNS;
     Batch.rows := [(ex_stale, ex_row "a.jpg" 90 20)] |}.

Definition ex_algs : list string := ["PyMedPhys"; "PyLinac"].

Definition ex_dataset : list Batch.Meta := [ex_row "a.jpg" 0 20].

Definition ex_run (prev : option Batch.Persisted) (D : list Batch.Meta)
  : except Batch.Persisted * list Batch.Call :=
  Batch.run_calculation ex_calc "/db" 8 2 prev D ex_algs [].

Definition ex_written (r : except Batch.Persisted * list Batch.Call)
  : Batch.Persisted :=
  match fst r with
  | Ok f => f
  | Err _ => {| Batch.columns := []; Batch.rows := [] |}
  end.

(** First run (over [ex_prev]) and second run (over the first's file). *)
Definition ex_first := ex_written (ex_run (Some ex_prev) ex_dataset).
Definition ex_second := ex_written (ex_run (Some ex_first) ex_dataset).

(** A two-row dataset whose rows have different field sizes. *)
Definition ex_dataset2 : list Batch.Meta :=
  [ex_row "a.jpg" 0 20; ex_row "b.jpg" 90 10].

(** Runs that start without a persisted file. *)
Definition ex_fresh := ex_run None ex_dataset.
Definition ex_fresh2 := ex_run None ex_dataset2.

(** A persisted file without the [diff_x] column. *)
Definition ex_prev_missing : Batch.Persisted :=
  {| Batch.columns := remove string_dec "diff_x" Batch.RESULTS_DATA_COLUMNS;
     Batch.rows := [] |}.

Local Open Scope Q_scope.

Definition ex_dvh : Scorer.DVH :=
  {| Scorer.dvh_mean := 20; Scorer.dvh_max := 30; Scorer.dvh_volume := 100;
     Scorer.dose_constraint := fun _ => 15;
     Scorer.dose_constraint_cm3 := fun _ => 15;
     Scorer.volume_constraint_Gy := fun _ => 50 |}.

Definition ex_constraints : list (string * list (string * Scorer.entry)) :=
  [("Liver", [("Mean", Scorer.Thresholds [(18, 0)]);
              ("Max", Scorer.Placeholder);
              ("V%", Scorer.Thresholds [(20, 1 # 2)])]);
   ("Kidney", [("Max", Scorer.Thresholds [(29, 0)])])].

Definition ex_aliases : list (string * list string) :=
  [("Liver", ["liver"]); ("Kidney", ["kidney"; "kidneys"])].

Definition ex_dvh_calcs : list (string * Scorer.DVH) :=
  [(" Liver ", ex_dvh); ("Kidneys", ex_dvh); ("liver_ptv", ex_dvh)].

End Examples.

(** ** Concrete inputs of the transfer check *)
Module TransferExamples.
Import TransferCheck.
Local Open Scope string_scope.

(** A Mosaiq row of patient Jane Doe (site setup and site approved). *)
Definition ex_mosaiq (site field_name field_label : string) (version : Z)
    (create_id approval : pyval) : MosaiqRow :=
  {| m_first_name := "Jane"; m_last_name := "Doe"; m_mrn := "123";
     m_dob := "1950-01-31 00:00:00"; m_create_id := create_id;
     m_site_setup_status := 5%Z; m_site_status := 5%Z;
     m_site_version := version; m_site_setup_version := 0%Z;
     m_field_version := 0%Z; m_site := site; m_field_name := field_name;
     m_field_label := field_label; m_field_approval := approval;
     m_fraction_pattern := "1"; m_notes := "none" |}.

(** Two current prostate fields, an older version of the first one, and a
    boost field that is not in the DICOM plan. *)
Definition ex_mosaiq_table : list MosaiqRow :=
  [ex_mosaiq "Prostate" "AP" "1" 0 (PyNum (Fl 42)) (PyNum (Fl 42));
   ex_mosaiq "Prostate" "PA" "2" 0 (PyNum (Fl 42)) PyNone;
   ex_mosaiq "Prostate" "AP" "1" 1 (PyNum (Fl 42)) (PyNum (Fl 42));
   ex_mosaiq "Boost" "LAT" "3" 0 (PyNum (Fl 42)) (PyNum (Fl 42))].

Definition ex_dicom_row (field_label field_name : string) : DicomRow :=
  {| d_first_name := "Jane"; d_last_name := "Doe"; d_mrn := "123";
     d_dob := "19500131"; d_field_label := field_label;
     d_field_name := field_name; d_rx := "Prostate" |}.

Definition ex_dicom_table : list (nat * DicomRow) :=
  [(0%nat, ex_dicom_row "1" "AP"); (1%nat, ex_dicom_row "2" "PA")].

(** Staff 42 has initials JD; any other id is not found. *)
Definition ex_staff_initials (staff_id : string) : result (list (list string)) :=
  if String.eqb staff_id "42" then ROk [["JD"]] else ROk [].

Definition ex_site_constants : list (Z * string) := [(5%Z, "Approved"); (2%Z, "Pending")].

(** An insertion sort on [field_label]. *)
Fixpoint ex_insert_by_label (x : nat * MosaiqRow) (l : list (nat * MosaiqRow))
  : list (nat * MosaiqRow) :=
  match l with
  | [] => [x]
  | y :: l' =>
      if String.leb (m_field_label (snd x)) (m_field_label (snd y))
      then x :: l else y :: ex_insert_by_label x l'
  end.

Definition ex_sort_by_field_label (l : list (nat * MosaiqRow)) : list (nat * MosaiqRow) :=
  fold_right ex_insert_by_label [] l.

(** A dataset listing [a.jpg] twice, under two treatments. *)
Definition ex_conflicting_dataset : list Batch.Meta :=
  [Examples.ex_row "a.jpg" 0 20;
   {| Batch.filepath := "a.jpg"; Batch.treatment := "T2"; Batch.port := "P1";
      Batch.gantry := 90; Batch.collimator := 0; Batch.width := 20;
      Batch.length := 20 |}].

End TransferExamples.

(** * Proofs *)

(** ** The locator *)
Module LocatorFacts.
Local Open Scope Z_scope.
Import Locator.

Section LocatorFacts.

Variables Img Field : Type.
Variable load : string -> Img * Field.
Variable com : Img -> float * float.
Variable refining :
  Field -> Z * Z -> Z -> float * float -> except ((float * float) * float).
Variable optimise :
  Field -> Z -> Z * Z -> Z -> float * float -> float -> except (float * float).
Variable run_wlutz :
  Field -> Z * Z -> Z -> float * float -> float ->
  except ((float * float) * (float * float)).

Lemma py_float_eqb_nan_r (x : float) : py_float_eqb x NaN = false.
Proof. destruct x; reflexivity. Qed.

(** C10: the guard [wlutz_input_parameters["field_rotation"] == np.nan] is
    false for every rotation, NaN included, so [_calculate_wlutz] always
    dispatches to [ALGORITHM_FUNCTION_MAP[algorithm]]; the all-NaN branch
    is dead. *)
Theorem calculate_wlutz_always_dispatches :
  (forall rotation : float, py_float_eqb rotation NaN = false) /\
  (forall image_path algorithm bb_diameter edge_lengths penumbra,
     _calculate_wlutz Img Field load com refining optimise run_wlutz
       image_path algorithm bb_diameter edge_lengths penumbra =
     (p <-? _get_wlutz_input_parameters Img Field load com refining
              image_path bb_diameter edge_lengths penumbra ;;
      calculate_function <-?
        getitem (ALGORITHM_FUNCTION_MAP Img Field optimise run_wlutz)
          algorithm ;;
      calculate_function p)).
Proof.
  split.
  - exact py_float_eqb_nan_r.
  - intros. unfold _calculate_wlutz.
    destruct (_get_wlutz_input_parameters _ _ _ _ _ _ _ _ _); simpl;
      [rewrite py_float_eqb_nan_r |]; reflexivity.
Qed.


End LocatorFacts.



End LocatorFacts.

(** ** The constraint scorer *)
Module ScorerFacts.
Import Scorer.
Local Open Scope Q_scope.

Lemma score_pairs_app dvh_calcs CONSTRAINTS ps1 ps2 acc :
  score_pairs dvh_calcs CONSTRAINTS (ps1 ++ ps2) acc =
  (df <-? score_pairs dvh_calcs CONSTRAINTS ps1 acc ;;
   score_pairs dvh_calcs CONSTRAINTS ps2 df).
Proof.
  revert acc; induction ps1 as [| [roi s] ps1 IH]; intros acc; simpl.
  - reflexivity.
  - destruct (compare_structure_with_constraints _ _ _ _); simpl; auto.
Qed.

Lemma score_structures_pairs dvh_calcs CONSTRAINTS aliases roi acc :
  score_structures dvh_calcs CONSTRAINTS aliases roi acc =
  score_pairs dvh_calcs CONSTRAINTS
    (flat_map (fun sa => if alias_match roi (snd sa) then [(roi, fst sa)] else [])
              aliases) acc.
Proof.
  revert acc; induction aliases as [| [s al] aliases IH]; intros acc; simpl.
  - reflexivity.
  - destruct (alias_match roi al); simpl; [| apply IH].
    destruct (compare_structure_with_constraints _ _ _ _); simpl; auto.
Qed.

Lemma score_rois_pairs dvh_calcs ALIASES CONSTRAINTS rois acc :
  score_rois dvh_calcs ALIASES CONSTRAINTS rois acc =
  score_pairs dvh_calcs CONSTRAINTS (matched_pairs ALIASES rois) acc.
Proof.
  revert acc; induction rois as [| roi rois IH]; intros acc; simpl.
  - reflexivity.
  - unfold matched_pairs in *; simpl.
    rewrite score_pairs_app, <- score_structures_pairs.
    destruct (score_structures _ _ _ _ _); simpl; auto.
Qed.



Lemma constraint_rows_props roi structure dvh type c r :
  In r (constraint_rows roi structure dvh type c) ->
  Structure r = roi /\ Structure_Key r = structure /\
  (Type_ r = "Mean" \/ Type_ r = "Max" \/ Type_ r = "V%" \/ Type_ r = "D%").
Proof.
  destruct c as [| ts]; simpl; [intros [] |].
  destruct (String.eqb type "Mean");
    [intros Hr; apply in_map_iff in Hr; destruct Hr as [t [<- _]]; simpl; tauto |].
  destruct (String.eqb type "Max");
    [intros Hr; apply in_map_iff in Hr; destruct Hr as [t [<- _]]; simpl; tauto |].
  destruct (String.eqb type "V%");
    [intros Hr; apply in_map_iff in Hr; destruct Hr as [t [<- _]]; simpl; tauto |].
  destruct (String.eqb type "D%");
    [intros Hr; apply in_map_iff in Hr; destruct Hr as [t [<- _]]; simpl; tauto |].
  intros [].
Qed.

Lemma compare_block roi structure dvh_calcs CONSTRAINTS block :
  compare_structure_with_constraints roi structure dvh_calcs CONSTRAINTS = Ok block ->
  scored_block (roi, structure) block.
Proof.
  unfold compare_structure_with_constraints, getitem.
  destruct (lookup structure CONSTRAINTS) as [sc |]; simpl; [| discriminate].
  destruct (lookup roi dvh_calcs) as [dvh |]; simpl; [| discriminate].
  set (df := flat_map _ sc).
  assert (Hdf : forall r, In r df ->
            Structure r = roi /\ Structure_Key r = structure /\
            (Type_ r = "Mean" \/ Type_ r = "Max" \/ Type_ r = "V%" \/ Type_ r = "D%")).
  { intros r Hr. unfold df in Hr. apply in_flat_map in Hr.
    destruct Hr as [tc [_ Hr]]. eapply constraint_rows_props; exact Hr. }
  unfold calculate_average_OAR_score.
  destruct df as [| r0 rs] eqn:Hd; [discriminate |].
  intros Hb; inversion Hb; subst block; clear Hb.
  destruct (Hdf r0 (or_introl eq_refl)) as [Hs [Hk _]].
  eexists (r0 :: rs), _. repeat split; simpl; auto; try discriminate.
  apply Forall_forall. intros r Hr.
  destruct (Hdf r Hr) as [_ [_ Ht]].
  split; intros He; rewrite He in Ht;
    destruct Ht as [Ht | [Ht | [Ht | Ht]]]; discriminate.
Qed.

Lemma score_pairs_blocks dvh_calcs CONSTRAINTS pairs acc out :
  score_pairs dvh_calcs CONSTRAINTS pairs acc = Ok out ->
  exists blocks, out = acc ++ List.concat blocks /\ Forall2 scored_block pairs blocks.
Proof.
  revert acc; induction pairs as [| [roi s] pairs IH]; intros acc H; simpl in H.
  - inversion H; subst. exists []. split; [rewrite app_nil_r; reflexivity | constructor].
  - destruct (compare_structure_with_constraints roi s dvh_calcs CONSTRAINTS)
      as [block |] eqn:Hc; simpl in H; [| discriminate].
    destruct (IH _ H) as [blocks [Hout Hall]].
    exists (block :: blocks). split.
    + rewrite Hout. simpl. rewrite app_assoc. reflexivity.
    + constructor; [eapply compare_block; exact Hc | exact Hall].
Qed.

(** C7: for a Mean constraint with threshold tuple [t] (not the
    placeholder), [compare_structure_with_constraints] emits a Mean row
    whose score is [t[0] - dvh.mean]. *)
Theorem mean_constraint_score (roi structure : string)
    (dvh_calcs : list (string * DVH))
    (CONSTRAINTS : list (string * list (string * entry)))
    (dvh : DVH) (sc : list (string * entry)) (ts : list (Q * Q)) (t : Q * Q)
    (Hdvh : lookup roi dvh_calcs = Some dvh)
    (Hsc : lookup structure CONSTRAINTS = Some sc)
    (Hmean : In ("Mean", Thresholds ts) sc)
    (Ht : In t ts) :
  exists block,
    compare_structure_with_constraints roi structure dvh_calcs CONSTRAINTS
      = Ok block /\
    exists r, In r block /\ Type_ r = "Mean" /\ Dose r = Num (fst t) /\
              Actual_Dose r = Num (dvh_mean dvh) /\
              Score r = fst t - dvh_mean dvh.
Proof.
  unfold compare_structure_with_constraints, getitem.
  rewrite Hsc, Hdvh. simpl.
  set (r := {| Structure := roi; Structure_Key := structure; Type_ := "Mean";
               Dose := Num (fst t); Volume := Dash;
               Actual_Dose := Num (dvh_mean dvh); Actual_Volume := Dash;
               Score := fst t - dvh_mean dvh |}).
  assert (Hr : In r (flat_map (fun tc => constraint_rows roi structure dvh
                                           (fst tc) (snd tc)) sc)).
  { apply in_flat_map. exists ("Mean", Thresholds ts). split; [exact Hmean |].
    simpl. apply in_map_iff. exists t. split; [reflexivity | exact Ht]. }
  unfold calculate_average_OAR_score.
  destruct (flat_map _ sc) as [| r0 rs] eqn:Hd; [contradiction |].
  eexists; split; [reflexivity |].
  exists r. repeat split. apply in_or_app. left. exact Hr.
Qed.

(** C7 witness: DVH mean 20 and Mean threshold 18 give the score -2. *)
Lemma mean_constraint_score_witness :
  lookup " Liver " Examples.ex_dvh_calcs = Some Examples.ex_dvh /\
  (exists block,
     compare_structure_with_constraints " Liver " "Liver"
       Examples.ex_dvh_calcs Examples.ex_constraints = Ok block /\
     exists r, In r block /\ Type_ r = "Mean" /\ Dose r = Num 18 /\
               Actual_Dose r = Num 20 /\ Score r = 18 - 20) /\
  18 - 20 = -2.
Proof.
  split; [reflexivity | split; [| reflexivity]].
  apply (mean_constraint_score " Liver " "Liver" Examples.ex_dvh_calcs
           Examples.ex_constraints Examples.ex_dvh
           [("Mean", Thresholds [(18, 0)]); ("Max", Placeholder);
            ("V%", Thresholds [(20, 1 # 2)])]
           [(18, 0)] (18, 0)); simpl; auto.
Defined.

Lemma filter_none {A} (f : A -> bool) (l : list A) :
  Forall (fun x => f x = false) l -> filter f l = [].
Proof. induction 1; simpl; [reflexivity | rewrite H; exact IHForall]. Qed.

Lemma filter_blocks_average pairs blocks d :
  Forall2 scored_block pairs blocks ->
  filter (fun r => String.eqb (Type_ r) "Average Score") (List.concat blocks)
  = map (fun b => last b d) blocks.
Proof.
  induction 1 as [| pair block pairs blocks Hb _ IH]; simpl; [reflexivity |].
  destruct Hb as [rows [avg [-> [_ [Ht [_ [_ [_ Hf]]]]]]]].
  rewrite !filter_app, IH, filter_none, last_last; simpl.
  - rewrite Ht. reflexivity.
  - eapply Forall_impl; [| exact Hf].
    intros r [Hne _]. apply String.eqb_neq. exact Hne.
Qed.

Lemma filter_blocks_total pairs blocks :
  Forall2 scored_block pairs blocks ->
  filter (fun r => String.eqb (Type_ r) "Total Score") (List.concat blocks) = [].
Proof.
  induction 1 as [| pair block pairs blocks Hb _ IH]; simpl; [reflexivity |].
  destruct Hb as [rows [avg [-> [_ [Ht [_ [_ [_ Hf]]]]]]]].
  rewrite !filter_app, IH, filter_none; simpl.
  - rewrite Ht. reflexivity.
  - eapply Forall_impl; [| exact Hf].
    intros r [_ Hne]. apply String.eqb_neq. exact Hne.
Qed.

Lemma blocks_last pairs blocks d1 d2 :
  Forall2 scored_block pairs blocks ->
  map (fun b => Score (last b d1)) blocks = map (fun b => Score (last b d2)) blocks.
Proof.
  induction 1 as [| pair block pairs blocks Hb _ IH]; simpl; [reflexivity |].
  destruct Hb as [rows [avg [-> _]]]. rewrite !last_last, IH. reflexivity.
Qed.

(** When the list-level scoring completes, its table is one block per
    matched pair followed by one ["Total Score"] row. *)
Lemma score_main_blocks (dvh_calcs : list (string * DVH))
    (ALIASES : list (string * list string))
    (CONSTRAINTS : list (string * list (string * entry)))
    (tbl : list ConstraintRow)
    (H : score_main dvh_calcs ALIASES CONSTRAINTS = Ok tbl) :
  exists blocks total,
    tbl = List.concat blocks ++ [total] /\
    Forall2 scored_block (matched_pairs ALIASES (map fst dvh_calcs)) blocks /\
    Type_ total = "Total Score" /\
    Score total = Qsum (map (fun b => Score (last b total)) blocks) /\
    List.length (filter (fun r => String.eqb (Type_ r) "Total Score") tbl) = 1%nat.
Proof.
  unfold score_main in H. rewrite score_rois_pairs in H.
  destruct (score_pairs _ _ _ []) as [out |] eqn:Hs; simpl in H; [| discriminate].
  inversion H; subst tbl; clear H.
  destruct (score_pairs_blocks _ _ _ _ _ Hs) as [blocks [Hout Hall]].
  simpl in Hout; subst out.
  unfold calculate_total_score.
  eexists blocks, _. split; [reflexivity |]. split; [exact Hall |].
  split; [reflexivity |]. split.
  - simpl. rewrite (filter_blocks_average _ _ {| Structure := ""; Structure_Key := ""; Type_ := "";
       Dose := Dash; Volume := Dash; Actual_Dose := Dash; Actual_Volume := Dash;
       Score := 0 |} Hall).
    rewrite map_map. f_equal. exact (blocks_last _ _ _ _ Hall).
  - rewrite filter_app, (filter_blocks_total _ _ Hall). reflexivity.
Qed.

End ScorerFacts.

(** ** The batch runner *)
Module BatchFacts.
Import Batch.
Local Open Scope Z_scope.

Lemma unique_aux_In {A} (dec : forall x y : A, {x = y} + {x <> y}) seen l x :
  In x (unique_aux dec seen l) <-> In x l /\ ~ In x seen.
Proof.
  revert seen; induction l as [| y l IH]; intros seen; simpl.
  - tauto.
  - destruct (in_dec dec y seen) as [Hy | Hy]; simpl; rewrite IH.
    + split; [tauto |]. intros [[<- | Hl] Hs]; [contradiction | tauto].
    + simpl. destruct (dec y x) as [-> | Hne]; [tauto |].
      split; [intros [H | [Hl Hs]]; [congruence | tauto] | tauto].
Qed.

Lemma unique_aux_NoDup {A} (dec : forall x y : A, {x = y} + {x <> y}) seen l :
  NoDup (unique_aux dec seen l).
Proof.
  revert seen; induction l as [| y l IH]; intros seen; simpl; [constructor |].
  destruct (in_dec dec y seen); [apply IH |].
  constructor; [| apply IH].
  rewrite unique_aux_In. simpl. tauto.
Qed.

Lemma drop_duplicates_In l x : In x (drop_duplicates l) <-> In x l.
Proof. unfold drop_duplicates. rewrite unique_aux_In. simpl. tauto. Qed.

Lemma drop_duplicates_NoDup l : NoDup (drop_duplicates l).
Proof. apply unique_aux_NoDup. Qed.

Lemma merge_In rs D r m :
  In (r, m) (merge rs D) <->
  In r rs /\ In m D /\ filepath m = r_filepath r.
Proof.
  unfold merge. rewrite in_flat_map. split.
  - intros [r' [Hr Hin]]. apply in_map_iff in Hin.
    destruct Hin as [m' [Heq Hm]]. inversion Heq; subst.
    apply filter_In in Hm. destruct Hm as [Hm He].
    apply String.eqb_eq in He. auto.
  - intros [Hr [Hm He]]. exists r. split; [exact Hr |].
    apply in_map_iff. exists m. split; [reflexivity |].
    apply filter_In. split; [exact Hm | apply String.eqb_eq; exact He].
Qed.

Section BatchFacts.

Variable calc : string -> string -> Z -> Z * Z -> Z -> except Locator.detection.
Variable database_directory : string.
Variables bb_diameter penumbra : Z.

Local Abbreviation full p := (_get_full_image_path database_directory p).
Local Abbreviation get_results :=
  (get_results_for_image calc database_directory bb_diameter penumbra).
Local Abbreviation process := (process_row calc database_directory bb_diameter penumbra).
Local Abbreviation loop := (main_loop calc database_directory bb_diameter penumbra).
Local Abbreviation run := (run_calculation calc database_directory bb_diameter penumbra).

Lemma detect_all_ok p algs e log ds log' :
  mapM (fun algorithm =>
      d <- calculate_wlutz calc bb_diameter penumbra (full p) algorithm e ;;
      ret (mk_result p algorithm d)) algs log = (Ok ds, log') ->
  log' = log ++ map (fun a => (full p, a, e)) algs /\
  Forall2 (fun a r => r_filepath r = p /\ algorithm r = a) algs ds.
Proof.
  revert log ds; induction algs as [| a algs IH]; intros log ds H; simpl in H.
  - inversion H; subst. split; [rewrite app_nil_r; reflexivity | constructor].
  - unfold bind, ret, calculate_wlutz in H.
    destruct (calc (full p) a bb_diameter e penumbra) as [d |] eqn:Hc;
      [| discriminate].
    destruct (mapM _ algs (log ++ [(full p, a, e)])) as [[ds' |] log''] eqn:Hm;
      [| discriminate].
    inversion H; subst ds log''. clear H.
    destruct (IH _ _ Hm) as [Hl Hf]. split.
    + rewrite Hl, <- app_assoc. reflexivity.
    + constructor; [destruct d as [[fc rot] bc]; simpl; auto | exact Hf].
Qed.

Lemma detect_all_calls p algs e log
    (Hcalc : forall a, In a algs -> exists d,
               calc (full p) a bb_diameter e penumbra = Ok d) :
  exists ds,
    mapM (fun algorithm =>
        d <- calculate_wlutz calc bb_diameter penumbra (full p) algorithm e ;;
        ret (mk_result p algorithm d)) algs log
    = (Ok ds, log ++ map (fun a => (full p, a, e)) algs).
Proof.
  revert log; induction algs as [| a algs IH]; intros log; simpl.
  - exists []. rewrite app_nil_r. reflexivity.
  - destruct (Hcalc a (or_introl eq_refl)) as [d Hd].
    destruct (IH (fun a' H => Hcalc a' (or_intror H)) (log ++ [(full p, a, e)]))
      as [ds Hds].
    exists (mk_result p a d :: ds).
    unfold bind, ret, calculate_wlutz in *. rewrite Hd, Hds.
    rewrite <- app_assoc. reflexivity.
Qed.

Lemma get_results_calls p algs e log
    (Hcalc : forall a, In a algs -> exists d,
               calc (full p) a bb_diameter e penumbra = Ok d) :
  snd (get_results p algs e log) = log ++ map (fun a => (full p, a, e)) algs.
Proof.
  destruct (detect_all_calls p algs e log Hcalc) as [ds Hds].
  unfold get_results_for_image, bind at 1. rewrite Hds.
  destruct ds; reflexivity.
Qed.

Lemma get_results_ok p algs e log rs log' :
  get_results p algs e log = (Ok rs, log') ->
  log' = log ++ map (fun a => (full p, a, e)) algs /\ rs <> [] /\
  Forall2 (fun a r => r_filepath r = p /\ algorithm r = a) algs rs.
Proof.
  unfold get_results_for_image, bind at 1.
  destruct (mapM _ algs log) as [[ds |] log''] eqn:Hm; [| discriminate].
  destruct (detect_all_ok _ _ _ _ _ _ Hm) as [Hl Hf].
  destruct ds as [| d ds]; [discriminate |].
  intros H; inversion H; subst. split; [reflexivity |].
  split; [discriminate | exact Hf].
Qed.

(** Computations of the runner only ever append to the call log. *)
Definition extends {A} (m : M A) : Prop :=
  forall log, exists l, snd (m log) = log ++ l.

Lemma extends_ret {A} (a : A) : extends (ret a).
Proof. intros log. exists []. rewrite app_nil_r. reflexivity. Qed.

Lemma extends_lift {A} (e : except A) : extends (lift e).
Proof. intros log. exists []. rewrite app_nil_r. reflexivity. Qed.

Lemma extends_bind {A B} (m : M A) (k : A -> M B) :
  extends m -> (forall a, extends (k a)) -> extends (bind m k).
Proof.
  intros Hm Hk log. unfold bind.
  destruct (Hm log) as [l1 H1].
  destruct (m log) as [[a | e] log1]; simpl in H1; subst log1.
  - destruct (Hk a (log ++ l1)) as [l2 H2]. exists (l1 ++ l2).
    rewrite H2, app_assoc. reflexivity.
  - exists l1. reflexivity.
Qed.

Lemma extends_mapM {A B} (f : A -> M B) l :
  (forall x, extends (f x)) -> extends (mapM f l).
Proof.
  intros Hf. induction l as [| x l IH]; simpl.
  - apply extends_ret.
  - apply extends_bind; [apply Hf | intros y].
    apply extends_bind; [exact IH | intros ys; apply extends_ret].
Qed.

Lemma extends_process prev D algs i p : extends (process prev D algs i p).
Proof.
  assert (Hrec : forall e, extends (get_results p algs e)).
  { intros e. unfold get_results_for_image.
    apply extends_bind.
    - apply extends_mapM. intros a. apply extends_bind; [| intros; apply extends_ret].
      intros log. exists [(full p, a, e)]. reflexivity.
    - intros [| r rs]; [apply extends_lift | apply extends_ret]. }
  unfold process_row.
  apply extends_bind; [| intros rs; apply extends_bind;
                         [apply extends_lift | intros; apply extends_ret]].
  destruct prev as [f |].
  - apply extends_bind; [apply extends_lift | intros rs].
    destruct (already_calculated algs rs); [apply extends_ret |].
    apply extends_bind; [apply extends_lift | intros; apply Hrec].
  - apply extends_bind; [apply extends_lift | intros; apply Hrec].
Qed.

Lemma extends_loop prev D algs i ps acc : extends (loop prev D algs i ps acc).
Proof.
  revert i acc; induction ps as [| p ps IH]; intros i acc; simpl.
  - apply extends_ret.
  - apply extends_bind; [apply extends_process | intros; apply IH].
Qed.

(** Computations of the runner only append calls satisfying [P]. *)
Definition extends_P (P : Call -> Prop) {A} (m : M A) : Prop :=
  forall log, exists l, snd (m log) = log ++ l /\ Forall P l.

Lemma extends_P_ret P {A} (a : A) : extends_P P (ret a).
Proof. intros log. exists []. rewrite app_nil_r. split; [reflexivity | constructor]. Qed.

Lemma extends_P_lift P {A} (e : except A) : extends_P P (lift e).
Proof. intros log. exists []. rewrite app_nil_r. split; [reflexivity | constructor]. Qed.

Lemma extends_P_mono (P Q : Call -> Prop) {A} (m : M A) :
  (forall c, P c -> Q c) -> extends_P P m -> extends_P Q m.
Proof.
  intros HPQ Hm log. destruct (Hm log) as [l [Hl Hf]].
  exists l. split; [exact Hl | eapply Forall_impl; [exact HPQ | exact Hf]].
Qed.

Lemma extends_P_bind P {A B} (m : M A) (k : A -> M B) :
  extends_P P m -> (forall a, extends_P P (k a)) -> extends_P P (bind m k).
Proof.
  intros Hm Hk log. unfold bind.
  destruct (Hm log) as [l1 [H1 F1]].
  destruct (m log) as [[a | e] log1]; simpl in H1; subst log1.
  - destruct (Hk a (log ++ l1)) as [l2 [H2 F2]]. exists (l1 ++ l2).
    rewrite H2, app_assoc. split; [reflexivity | apply Forall_app; auto].
  - exists l1. auto.
Qed.

Lemma extends_P_bind_lift P {A B} (e : except A) (k : A -> M B) :
  (forall a, e = Ok a -> extends_P P (k a)) -> extends_P P (bind (lift e) k).
Proof.
  intros Hk log. unfold bind, lift. destruct e as [a | e'].
  - exact (Hk a eq_refl log).
  - exists []. rewrite app_nil_r. split; [reflexivity | constructor].
Qed.

Lemma extends_P_mapM P {A B} (f : A -> M B) l :
  (forall x, In x l -> extends_P P (f x)) -> extends_P P (mapM f l).
Proof.
  induction l as [| x l IH]; intros Hf; simpl.
  - apply extends_P_ret.
  - apply extends_P_bind; [apply Hf; left; reflexivity | intros y].
    apply extends_P_bind; [apply IH; intros z Hz; apply Hf; right; exact Hz |].
    intros ys. apply extends_P_ret.
Qed.

(** The detection calls of the loop body at position [i] for image [p]:
    every selected algorithm, with the edge lengths of dataset row [i]. *)
Lemma extends_P_process prev D algs i p :
  extends_P (fun c => exists row a, nth_error D i = Some row /\ In a algs /\
                                    c = (full p, a, (width row, length row)))
            (process prev D algs i p).
Proof.
  set (P := fun c => exists row a, nth_error D i = Some row /\ In a algs /\
                                   c = (full p, a, (width row, length row))).
  assert (Hrec : extends_P P (row <- lift (row_at D i) ;;
                              get_results p algs (width row, length row))).
  { apply extends_P_bind_lift. intros row Hrow.
    assert (Hn : nth_error D i = Some row)
      by (unfold row_at in Hrow; destruct (nth_error D i); congruence).
    unfold get_results_for_image. apply extends_P_bind.
    - apply extends_P_mapM. intros a Ha.
      apply extends_P_bind; [| intros; apply extends_P_ret].
      intros log. exists [(full p, a, (width row, length row))].
      split; [reflexivity |]. constructor; [| constructor].
      exists row, a. auto.
    - intros [| r rs]; [apply extends_P_lift | apply extends_P_ret]. }
  unfold process_row.
  apply extends_P_bind; [| intros rs; apply extends_P_bind;
                           [apply extends_P_lift | intros; apply extends_P_ret]].
  destruct prev as [f |]; [| exact Hrec].
  apply extends_P_bind; [apply extends_P_lift | intros rs].
  destruct (already_calculated algs rs); [apply extends_P_ret | exact Hrec].
Qed.

Lemma extends_P_loop prev D algs i ps acc :
  extends_P (fun c => exists k row a, (k < List.length ps)%nat /\
                        nth_error D (i + k) = Some row /\ In a algs /\
                        c = (full (nth k ps ""), a, (width row, length row)))
            (loop prev D algs i ps acc).
Proof.
  revert i acc; induction ps as [| p ps IH]; intros i acc; simpl.
  - apply extends_P_ret.
  - apply extends_P_bind.
    + eapply extends_P_mono; [| apply extends_P_process].
      intros c [row [a [Hrow [Ha Hc]]]]. exists 0%nat, row, a.
      rewrite Nat.add_0_r. repeat split; auto. lia.
    + intros rs. eapply extends_P_mono; [| apply IH].
      intros c [k [row [a [Hk [Hrow [Ha Hc]]]]]]. exists (S k), row, a.
      rewrite Nat.add_succ_r. repeat split; auto. lia.
Qed.

Lemma run_calls prev D algs log res log' (d : Meta) :
  run prev D algs log = (res, log') ->
  exists l, log' = log ++ l /\
    forall c, In c l -> exists i a, (i < List.length D)%nat /\ In a algs /\
      c = (full (filepath (nth (List.length D - 1 - i) D d)), a,
           (width (nth i D d), length (nth i D d))).
Proof.
  intros Hrun.
  assert (Hext : extends_P
            (fun c => exists k row a, (k < List.length (rev (map filepath D)))%nat /\
                        nth_error D (0 + k) = Some row /\ In a algs /\
                        c = (full (nth k (rev (map filepath D)) ""), a,
                             (width row, length row)))
            (run prev D algs)).
  { unfold run_calculation. apply extends_P_bind; [apply extends_P_loop |].
    intros collated. destruct D; [apply extends_P_lift | apply extends_P_ret]. }
  destruct (Hext log) as [l [Hl Hf]]. rewrite Hrun in Hl. simpl in Hl.
  exists l. split; [exact Hl |].
  intros c Hc. rewrite Forall_forall in Hf.
  destruct (Hf c Hc) as [k [row [a [Hk [Hrow [Ha ->]]]]]].
  rewrite length_rev, length_map in Hk.
  simpl in Hrow. apply nth_error_nth with (d := d) in Hrow. subst row.
  exists k, a. split; [exact Hk |]. split; [exact Ha |].
  rewrite rev_nth by (rewrite length_map; exact Hk).
  rewrite length_map.
  rewrite nth_indep with (d' := filepath d) by (rewrite length_map; lia).
  rewrite map_nth.
  replace (List.length D - S k)%nat with (List.length D - 1 - k)%nat by lia.
  reflexivity.
Qed.

Lemma snd_check_then_ret {A} (m : M A) (g : A -> except unit) log :
  snd ((x <- m ;; _ <- lift (g x) ;; ret x) log) = snd (m log).
Proof.
  unfold bind, lift, ret. destruct (m log) as [[a | e] l]; [| reflexivity].
  destruct (g a); reflexivity.
Qed.

Lemma process_none_ok D algs i p log rs log1 :
  process None D algs i p log = (Ok rs, log1) ->
  exists row,
    nth_error D i = Some row /\
    log1 = log ++ map (fun a => (full p, a, (width row, length row))) algs /\
    rs <> [] /\
    Forall2 (fun a r => r_filepath r = p /\ algorithm r = a) algs rs /\
    working_table_check rs D = Ok tt.
Proof.
  unfold process_row, bind at 1 2, lift at 1, row_at.
  destruct (nth_error D i) as [row |] eqn:Hrow; [| discriminate].
  destruct (get_results p algs (width row, length row) log)
    as [[rs' |] log2] eqn:Hg; [| discriminate].
  unfold bind, lift, ret.
  destruct (working_table_check rs' D) as [[] |] eqn:Hw; [| discriminate].
  intros H; inversion H; subst rs log1; clear H.
  destruct (get_results_ok _ _ _ _ _ _ Hg) as [Hl [Hne Hf]].
  exists row. auto.
Qed.

(** C2 (as the code does it): at loop position [i], with row [i] of the
    dataset existing and every detection succeeding, the row makes no
    detection call when the persisted table has a row for the image for
    every selected algorithm (and then yields exactly those persisted
    rows), and otherwise calls the detection once for every selected
    algorithm, persisted or not. *)
Theorem process_row_detection_calls (prev : option Persisted) (D : list Meta)
    (algs : list string) (i : nat) (p : string) (log : list Call) (row : Meta)
    (Hrow : nth_error D i = Some row)
    (Hcalc : forall a, In a algs -> exists d,
       calc (full p) a bb_diameter (width row, length row) penumbra = Ok d) :
  snd (process prev D algs i p log) =
    log ++ match prev with
           | Some f =>
               match select_results f p with
               | Ok rs =>
                   if already_calculated algs rs then []
                   else map (fun a => (full p, a, (width row, length row))) algs
               | Err _ => []
               end
           | None => map (fun a => (full p, a, (width row, length row))) algs
           end /\
  (forall f rs out log',
     prev = Some f -> select_results f p = Ok rs ->
     already_calculated algs rs = true ->
     process prev D algs i p log = (Ok out, log') -> out = rs).
Proof.
  split.
  - unfold process_row. rewrite snd_check_then_ret.
    assert (Hrec : snd ((row' <- lift (row_at D i) ;;
                         get_results p algs (width row', length row')) log)
                   = log ++ map (fun a => (full p, a, (width row, length row))) algs).
    { unfold bind at 1, lift at 1, row_at. rewrite Hrow.
      apply get_results_calls. exact Hcalc. }
    destruct prev as [f |]; [| exact Hrec].
    unfold bind at 1, lift at 1.
    destruct (select_results f p) as [rs |]; simpl;
      [| rewrite app_nil_r; reflexivity].
    destruct (already_calculated algs rs); [rewrite app_nil_r; reflexivity |].
    exact Hrec.
  - intros f rs out log' -> Hsel Hall.
    unfold process_row, bind at 1 2, lift at 1. rewrite Hsel, Hall.
    unfold ret at 1, bind, lift, ret.
    destruct (working_table_check rs D); intros H; inversion H; reflexivity.
Qed.

Lemma loop_none_calls D algs i ps acc log out log' :
  loop None D algs i ps acc log = (Ok out, log') ->
  forall k, (k < List.length ps)%nat -> forall a, In a algs ->
  exists row, nth_error D (i + k) = Some row /\
              In (full (nth k ps ""), a, (width row, length row)) log'.
Proof.
  revert i acc log; induction ps as [| q ps IH]; intros i acc log H k Hk a Ha;
    simpl in Hk; [lia |].
  simpl in H. unfold bind at 1 in H.
  destruct (process None D algs i q log) as [[rs |] log1] eqn:Hp; [| discriminate].
  destruct k as [| k].
  - destruct (process_none_ok _ _ _ _ _ _ _ Hp) as [row [Hrow [Hl _]]].
    exists row. rewrite Nat.add_0_r. split; [exact Hrow |].
    destruct (extends_loop None D algs (S i) ps (acc ++ rs) log1) as [l Hext].
    rewrite H in Hext. simpl in Hext. rewrite Hext, Hl.
    apply in_or_app. left. apply in_or_app. right.
    apply in_map_iff. exists a. split; [reflexivity | exact Ha].
  - destruct (IH (S i) (acc ++ rs) log1 H k ltac:(lia) a Ha) as [row [Hrow Hin]].
    exists row. rewrite Nat.add_succ_r. split; [exact Hrow | exact Hin].
Qed.

(** C5: in every run, with or without a persisted file and whether it
    completes or raises later, each detection call made is for the image
    of dataset row [n-1-i] (the reversed [filepath] column at loop
    position [i]) with the edge lengths of dataset row [i]; and in a
    completed first run such a call is made at every position [i] for
    every selected algorithm.  So when rows [i] and [n-1-i] have different
    width/length, that image is processed with edge lengths other than its
    own row's. *)
Theorem reversed_path_forward_geometry :
  (forall (prev : option Persisted) (D : list Meta) (algs : list string)
          (log : list Call) (res : except Persisted) (log' : list Call) (d : Meta),
     run prev D algs log = (res, log') ->
     exists l, log' = log ++ l /\
       forall c, In c l -> exists i a, (i < List.length D)%nat /\ In a algs /\
         c = (full (filepath (nth (List.length D - 1 - i) D d)), a,
              (width (nth i D d), length (nth i D d)))) /\
  (forall (D : list Meta) (algs : list string) (log : list Call) (f : Persisted)
          (log' : list Call) (i : nat) (a : string) (d : Meta),
     run None D algs log = (Ok f, log') ->
     (1 < List.length D)%nat -> (i < List.length D)%nat -> In a algs ->
     (width (nth i D d), length (nth i D d)) <>
       (width (nth (List.length D - 1 - i) D d),
        length (nth (List.length D - 1 - i) D d)) ->
     In (full (filepath (nth (List.length D - 1 - i) D d)), a,
         (width (nth i D d), length (nth i D d))) log' /\
     exists e, In (full (filepath (nth (List.length D - 1 - i) D d)), a, e) log' /\
               e <> (width (nth (List.length D - 1 - i) D d),
                     length (nth (List.length D - 1 - i) D d))).
Proof.
  split.
  { intros prev D algs log res log' d Hrun. exact (run_calls _ _ _ _ _ _ d Hrun). }
  intros D algs log f log' i a d Hrun Hn Hi Ha Hdiff.
  unfold run_calculation, bind at 1 in Hrun.
  destruct (loop None D algs 0 (rev (map filepath D)) [] log)
    as [[collated |] log1] eqn:Hl; [| discriminate].
  assert (Hlog : log1 = log').
  { destruct D; [discriminate |]. inversion Hrun; reflexivity. }
  subst log1.
  assert (Hk : (i < List.length (rev (map filepath D)))%nat).
  { rewrite length_rev, length_map. exact Hi. }
  destruct (loop_none_calls _ _ _ _ _ _ _ _ Hl i Hk a Ha) as [row [Hrow Hin]].
  simpl in Hrow. apply nth_error_nth with (d := d) in Hrow. subst row.
  rewrite rev_nth in Hin by (rewrite length_map; exact Hi).
  rewrite length_map in Hin.
  rewrite nth_indep with (d' := filepath d) in Hin by (rewrite length_map; lia).
  rewrite map_nth in Hin.
  replace (List.length D - S i)%nat with (List.length D - 1 - i)%nat in Hin by lia.
  split; [exact Hin |].
  eexists. split; [exact Hin | exact Hdiff].
Qed.

(** C4 (as the code does it): the table that overwrites [raw_results.csv]
    has no two identical rows. *)
Theorem written_rows_no_exact_duplicates (prev : option Persisted)
    (D : list Meta) (algs : list string) (log log' : list Call) (f : Persisted)
    (Hrun : run prev D algs log = (Ok f, log')) :
  NoDup (rows f).
Proof.
  unfold run_calculation, bind at 1 in Hrun.
  destruct (loop prev D algs 0 (rev (map filepath D)) [] log)
    as [[collated |] log1]; [| discriminate].
  destruct D; [discriminate |]. inversion Hrun; subst f. simpl.
  apply drop_duplicates_NoDup.
Qed.

Lemma find_none_all {A} (g : A -> bool) l :
  (forall x, In x l -> g x = false) -> find g l = None.
Proof.
  induction l as [| x l IH]; intros H; simpl; [reflexivity |].
  rewrite (H x (or_introl eq_refl)). apply IH. intros y Hy. apply H. right; exact Hy.
Qed.

(** C6 (as the code does it): nothing checks the persisted file's columns
    at load.  A file missing one of the nine result columns makes the run
    raise [KeyError] while the first dataset row is processed, before any
    detection; a file whose header contains the nine (extra columns
    allowed) is accepted; the ["Unexpected columns"] check of a freshly
    computed result table fails when no algorithm is selected, and only
    then (with an algorithm selected, [get_results_for_image] is its
    detections); and the file
    the run writes carries the dataset columns besides the nine. *)
Theorem persisted_columns_behaviour :
  (forall f D algs log c,
     In c RESULTS_DATA_COLUMNS -> ~ In c (columns f) -> D <> [] ->
     exists k, run (Some f) D algs log = (Err (KeyError k), log)) /\
  (forall f p,
     incl RESULTS_DATA_COLUMNS (columns f) ->
     select_results f p =
       Ok (map fst (filter (fun r => String.eqb (r_filepath (fst r)) p) (rows f)))) /\
  (forall p e log,
     get_results p [] e log = (Err (ValueError "Unexpected columns"), log)) /\
  (forall p algs e log, algs <> [] ->
     get_results p algs e log =
     mapM (fun algorithm =>
         d <- calculate_wlutz calc bb_diameter penumbra (full p) algorithm e ;;
         ret (mk_result p algorithm d)) algs log) /\
  (forall prev D algs log f log',
     run prev D algs log = (Ok f, log') ->
     incl (RESULTS_DATA_COLUMNS ++ META_COLUMNS) (columns f)).
Proof.
  split; [| split; [| split; [| split]]].
  - intros f D algs log c Hc Hnc HD.
    destruct (find (fun c => negb (existsb (String.eqb c) (columns f)))
                   RESULTS_DATA_COLUMNS) as [k |] eqn:Hfind.
    + exists k.
      destruct (rev (map filepath D)) as [| q qs] eqn:Hps.
      { destruct D; [contradiction |]. simpl in Hps.
        destruct (rev (map filepath D)); discriminate. }
      assert (Hp : forall i, process (Some f) D algs i q log
                             = (Err (KeyError k), log)).
      { intros i. unfold process_row, select_results. rewrite Hfind. reflexivity. }
      unfold run_calculation. rewrite Hps. simpl main_loop.
      unfold bind. rewrite Hp. reflexivity.
    + exfalso. apply Hnc.
      pose proof (find_none _ _ Hfind c Hc) as H. simpl in H.
      apply negb_false_iff, existsb_exists in H.
      destruct H as [x [Hx He]]. apply String.eqb_eq in He. subst x. exact Hx.
  - intros f p Hincl. unfold select_results.
    rewrite find_none_all; [reflexivity |].
    intros c Hc. apply negb_false_iff, existsb_exists.
    exists c. split; [apply Hincl; exact Hc | apply String.eqb_refl].
  - intros p e log. reflexivity.
  - intros p algs e log Hne. unfold get_results_for_image, bind at 1.
    destruct (mapM _ algs log) as [[ds |] log1] eqn:Hm; [| reflexivity].
    destruct (detect_all_ok _ _ _ _ _ _ Hm) as [_ Hf].
    destruct ds as [| r ds]; [| reflexivity].
    inversion Hf; subst. contradiction.
  - intros prev D algs log f log' Hrun.
    unfold run_calculation, bind at 1 in Hrun.
    destruct (loop prev D algs 0 (rev (map filepath D)) [] log)
      as [[collated |] log1]; [| discriminate].
    destruct D; [discriminate |]. inversion Hrun; subst f.
    exact (incl_appl _ (incl_refl _)).
Qed.

Lemma Forall2_In_l {A B} (P : A -> B -> Prop) l1 l2 a :
  Forall2 P l1 l2 -> In a l1 -> exists b, In b l2 /\ P a b.
Proof.
  induction 1 as [| x y l1 l2 Hxy _ IH]; intros Ha; [destruct Ha |].
  destruct Ha as [<- | Ha].
  - exists y. split; [left; reflexivity | exact Hxy].
  - destruct (IH Ha) as [b [Hb HP]]. exists b. split; [right; exact Hb | exact HP].
Qed.

Lemma Forall2_In_r {A B} (P : A -> B -> Prop) l1 l2 b :
  Forall2 P l1 l2 -> In b l2 -> exists a, In a l1 /\ P a b.
Proof.
  induction 1 as [| x y l1 l2 Hxy _ IH]; intros Hb; [destruct Hb |].
  destruct Hb as [<- | Hb].
  - exists x. split; [left; reflexivity | exact Hxy].
  - destruct (IH Hb) as [a [Ha HP]]. exists a. split; [right; exact Ha | exact HP].
Qed.

Lemma unique_same_length l1 l2 :
  (forall x, In x l1 <-> In x l2) ->
  List.length (unique l1) = List.length (unique l2).
Proof.
  intros H. apply Permutation_length, NoDup_Permutation;
    [apply unique_aux_NoDup | apply unique_aux_NoDup |].
  intros x. unfold unique. rewrite !unique_aux_In. simpl. rewrite H. tauto.
Qed.

Lemma collapse_by_length l1 l2 column :
  List.length (unique l1) = List.length (unique l2) ->
  (exists v, _collapse_column_to_single_value l1 column = Ok v) <->
  (exists v, _collapse_column_to_single_value l2 column = Ok v).
Proof.
  unfold _collapse_column_to_single_value.
  destruct (unique l1) as [| x [| y u1]], (unique l2) as [| x' [| y' u2]];
    simpl; intros H; try discriminate;
    split; intros [v Hv]; try discriminate; eexists; reflexivity.
Qed.

Definition wtc_values (sel : Meta -> string) (R : list Res) (D : list Meta) :=
  map (fun r => sel (snd r)) (merge R D).

Lemma wtc_values_In sel R D q x :
  R <> [] -> (forall r, In r R -> r_filepath r = q) ->
  In x (wtc_values sel R D) <-> exists m, In m D /\ filepath m = q /\ sel m = x.
Proof.
  intros Hne Hq. unfold wtc_values. rewrite in_map_iff. split.
  - intros [[r m] [Hx Hin]]. apply merge_In in Hin.
    destruct Hin as [Hr [Hm He]]. exists m. simpl in Hx.
    rewrite (Hq r Hr) in He. auto.
  - intros [m [Hm [He Hx]]]. destruct R as [| r R]; [contradiction |].
    exists (r, m). split; [exact Hx |]. apply merge_In.
    split; [left; reflexivity |]. split; [exact Hm |].
    rewrite (Hq r (or_introl eq_refl)). exact He.
Qed.

Lemma working_table_check_same_path R1 R2 D q :
  R1 <> [] -> (forall r, In r R1 -> r_filepath r = q) ->
  R2 <> [] -> (forall r, In r R2 -> r_filepath r = q) ->
  working_table_check R1 D = Ok tt -> working_table_check R2 D = Ok tt.
Proof.
  intros Hn1 Hq1 Hn2 Hq2.
  assert (Hlen : forall sel,
    List.length (unique (wtc_values sel R1 D)) =
    List.length (unique (wtc_values sel R2 D))).
  { intros sel. apply unique_same_length. intros x.
    rewrite (wtc_values_In sel R1 D q x Hn1 Hq1), (wtc_values_In sel R2 D q x Hn2 Hq2).
    tauto. }
  unfold working_table_check, ebind.
  destruct (_collapse_column_to_single_value (map (fun r => treatment (snd r)) (merge R1 D))
              "treatment") as [v1 |] eqn:H1; [| discriminate].
  destruct (_collapse_column_to_single_value (map (fun r => port (snd r)) (merge R1 D))
              "port") as [w1 |] eqn:H2; [| discriminate].
  intros _.
  destruct (proj1 (collapse_by_length _ _ "treatment" (Hlen treatment)) (ex_intro _ v1 H1))
    as [v2 Hv2].
  destruct (proj1 (collapse_by_length _ _ "port" (Hlen port)) (ex_intro _ w1 H2))
    as [w2 Hw2].
  unfold wtc_values in Hv2, Hw2. rewrite Hv2, Hw2. reflexivity.
Qed.

(** What a completed first run (no persisted file) guarantees about the
    rows it collated. *)
Lemma loop_none_facts D algs i ps acc log out log' :
  loop None D algs i ps acc log = (Ok out, log') ->
  incl acc out /\
  (forall q a, In q ps -> In a algs ->
     exists r, In r out /\ r_filepath r = q /\ algorithm r = a) /\
  (forall q, In q ps ->
     exists R, R <> [] /\ (forall r, In r R -> r_filepath r = q) /\
               working_table_check R D = Ok tt) /\
  (ps <> [] -> algs <> []).
Proof.
  revert i acc log; induction ps as [| p ps IH]; intros i acc log H; simpl in H.
  - inversion H; subst. split; [apply incl_refl |].
    split; [intros q a [] |]. split; [intros q [] |]. intros Hc; contradiction.
  - unfold bind at 1 in H.
    destruct (process None D algs i p log) as [[rs |] log1] eqn:Hp; [| discriminate].
    destruct (process_none_ok _ _ _ _ _ _ _ Hp) as [row [_ [_ [Hne [Hf Hw]]]]].
    destruct (IH _ _ _ H) as [Hacc [Hrows [Hchk _]]].
    split; [intros x Hx; apply Hacc, in_or_app; left; exact Hx |].
    split; [| split].
    + intros q a [<- | Hq] Ha.
      * destruct (Forall2_In_l _ _ _ a Hf Ha) as [r [Hr [Hrp Hra]]].
        exists r. split; [apply Hacc, in_or_app; right; exact Hr | auto].
      * exact (Hrows q a Hq Ha).
    + intros q [<- | Hq]; [| exact (Hchk q Hq)].
      exists rs. split; [exact Hne |]. split; [| exact Hw].
      intros r Hr. destruct (Forall2_In_r _ _ _ r Hf Hr) as [a [_ [Hrp _]]]. exact Hrp.
    + intros _ Hnil. subst algs. inversion Hf; subst. contradiction.
Qed.

Lemma loop_all_reused prev D algs (S : string -> list Res) i ps acc log :
  (forall i q log, In q ps -> process prev D algs i q log = (Ok (S q), log)) ->
  loop prev D algs i ps acc log = (Ok (acc ++ flat_map S ps), log).
Proof.
  revert i acc; induction ps as [| q ps IH]; intros i acc H; simpl.
  - rewrite app_nil_r. reflexivity.
  - unfold bind at 1. rewrite (H i q log (or_introl eq_refl)).
    rewrite IH by (intros; apply H; right; assumption).
    rewrite app_assoc. reflexivity.
Qed.

Lemma select_results_complete f p :
  incl RESULTS_DATA_COLUMNS (columns f) ->
  select_results f p =
    Ok (map fst (filter (fun r => String.eqb (r_filepath (fst r)) p) (rows f))).
Proof.
  intros Hincl. unfold select_results.
  rewrite find_none_all; [reflexivity |].
  intros c Hc. apply negb_false_iff, existsb_exists.
  exists c. split; [apply Hincl; exact Hc | apply String.eqb_refl].
Qed.

(** C3 (as the code does it): when the first run starts without a
    persisted file, running again over the file it wrote makes no detection
    call, writes the same header, and writes the same set of rows, without
    duplicates (their order may differ). *)
Theorem rerun_reproduces_rows (D : list Meta) (algs : list string)
    (log log1 : list Call) (f1 : Persisted)
    (Hrun1 : run None D algs log = (Ok f1, log1)) (log2 : list Call) :
  exists f2,
    run (Some f1) D algs log2 = (Ok f2, log2) /\
    columns f2 = columns f1 /\
    Permutation (rows f2) (rows f1) /\
    NoDup (rows f2).
Proof.
  unfold run_calculation, bind at 1 in Hrun1.
  destruct (loop None D algs 0 (rev (map filepath D)) [] log)
    as [[c1 |] l1] eqn:Hl1; [| discriminate].
  destruct (loop_none_facts _ _ _ _ _ _ _ _ Hl1) as [_ [Hall [Hchk Halgs]]].
  destruct D as [| m0 D0]; [discriminate |].
  injection Hrun1 as Hf1 _.
  assert (Hcols : columns f1 = (RESULTS_DATA_COLUMNS ++ META_COLUMNS) ++
            filter (fun c => negb (existsb (String.eqb c)
                                (RESULTS_DATA_COLUMNS ++ META_COLUMNS))) [])
    by (rewrite <- Hf1; reflexivity).
  assert (Hrows : rows f1 = drop_duplicates (merge c1 (m0 :: D0) ++ []))
    by (rewrite <- Hf1; reflexivity).
  clear Hf1.
  set (D := m0 :: D0) in *.
  set (ps := rev (map filepath D)) in *.
  set (S := fun q => map fst (filter (fun r => String.eqb (r_filepath (fst r)) q)
                                     (rows f1))).
  assert (HS_path : forall q r, In r (S q) -> r_filepath r = q).
  { intros q r Hr. unfold S in Hr. apply in_map_iff in Hr.
    destruct Hr as [[r' m] [Hr Hin]]. simpl in Hr. subst r'.
    apply filter_In in Hin. destruct Hin as [_ He]. apply String.eqb_eq. exact He. }
  assert (HS_rows : forall q r, In r (S q) -> In r c1).
  { intros q r Hr. unfold S in Hr. apply in_map_iff in Hr.
    destruct Hr as [[r' m] [Hr Hin]]. simpl in Hr. subst r'.
    apply filter_In in Hin. destruct Hin as [Hin _].
    rewrite Hrows, drop_duplicates_In, app_nil_r, merge_In in Hin. tauto. }
  assert (HS_alg : forall q a, In q ps -> In a algs ->
                   exists r, In r (S q) /\ algorithm r = a).
  { intros q a Hq Ha. destruct (Hall q a Hq Ha) as [r [Hr [Hrq Hra]]].
    unfold ps in Hq. apply in_rev, in_map_iff in Hq. destruct Hq as [m [Hmq Hm]].
    exists r. split; [| exact Hra]. unfold S. apply in_map_iff.
    exists (r, m). split; [reflexivity |]. apply filter_In. split.
    - rewrite Hrows, drop_duplicates_In, app_nil_r, merge_In.
      split; [exact Hr |]. split; [exact Hm |]. congruence.
    - simpl. apply String.eqb_eq. exact Hrq. }
  assert (Hproc : forall i q lg, In q ps ->
                  process (Some f1) D algs i q lg = (Ok (S q), lg)).
  { intros i q lg Hq.
    assert (Hsel : select_results f1 q = Ok (S q)).
    { apply select_results_complete. rewrite Hcols.
      intros c Hc. apply in_or_app. left. apply in_or_app. left. exact Hc. }
    assert (Hac : already_calculated algs (S q) = true).
    { apply forallb_forall. intros a Ha. apply existsb_exists.
      destruct (HS_alg q a Hq Ha) as [r [Hr Hra]].
      exists r. split; [exact Hr | apply String.eqb_eq; exact Hra]. }
    assert (Hwtc : working_table_check (S q) D = Ok tt).
    { destruct (Hchk q Hq) as [R [HRne [HRq HRw]]].
      apply (working_table_check_same_path R (S q) D q HRne HRq); [| | exact HRw].
      - destruct algs as [| a algs']. { exfalso. apply (Halgs ltac:(destruct ps; [contradiction | discriminate])). reflexivity. }
        destruct (HS_alg q a Hq (or_introl eq_refl)) as [r [Hr _]].
        destruct (S q); [contradiction | discriminate].
      - apply HS_path. }
    unfold process_row, bind, lift, ret. rewrite Hsel, Hac, Hwtc. reflexivity. }
  pose proof (loop_all_reused (Some f1) D algs S 0 ps [] log2 Hproc) as Hloop.
  exists {| columns := (RESULTS_DATA_COLUMNS ++ META_COLUMNS) ++
              filter (fun c => negb (existsb (String.eqb c)
                                  (RESULTS_DATA_COLUMNS ++ META_COLUMNS)))
                     (columns f1);
            rows := drop_duplicates (merge ([] ++ flat_map S ps) D ++ rows f1) |}.
  split; [| split; [| split]].
  - unfold run_calculation, bind at 1. fold ps. rewrite Hloop. reflexivity.
  - simpl columns. rewrite Hcols. reflexivity.
  - simpl rows. apply NoDup_Permutation;
      [apply drop_duplicates_NoDup | rewrite Hrows; apply drop_duplicates_NoDup |].
    intros [r m]. rewrite drop_duplicates_In, in_app_iff. split; [| tauto].
    intros [Hin | Hin]; [| exact Hin].
    apply merge_In in Hin. destruct Hin as [Hr [Hm He]].
    simpl in Hr. apply in_flat_map in Hr. destruct Hr as [q [_ Hr]].
    rewrite Hrows, drop_duplicates_In, app_nil_r, merge_In.
    split; [exact (HS_rows q r Hr) |]. split; [exact Hm | exact He].
  - apply drop_duplicates_NoDup.
Qed.

End BatchFacts.

Lemma process_row_detection_calls_witness :
  nth_error Examples.ex_dataset 0 = Some (Examples.ex_row "a.jpg" 0 20) /\
  (forall a, In a Examples.ex_algs -> exists d,
     Examples.ex_calc (_get_full_image_path "/db" "a.jpg") a 8 (20, 20) 2 = Ok d) /\
  snd (process_row Examples.ex_calc "/db" 8 2 (Some Examples.ex_prev)
         Examples.ex_dataset Examples.ex_algs 0 "a.jpg" []) =
    [] ++ match select_results Examples.ex_prev "a.jpg" with
          | Ok rs =>
              if already_calculated Examples.ex_algs rs then []
              else map (fun a => (_get_full_image_path "/db" "a.jpg", a, (20, 20)))
                       Examples.ex_algs
          | Err _ => []
          end /\
  (forall f rs out log',
     Some Examples.ex_prev = Some f -> select_results f "a.jpg" = Ok rs ->
     already_calculated Examples.ex_algs rs = true ->
     process_row Examples.ex_calc "/db" 8 2 (Some Examples.ex_prev)
       Examples.ex_dataset Examples.ex_algs 0 "a.jpg" [] = (Ok out, log') ->
     out = rs).
Proof.
  assert (Hc : forall a, In a Examples.ex_algs -> exists d,
     Examples.ex_calc (_get_full_image_path "/db" "a.jpg") a 8 (20, 20) 2 = Ok d)
    by (intros a _; eexists; reflexivity).
  split; [reflexivity |]. split; [exact Hc |].
  exact (process_row_detection_calls Examples.ex_calc "/db" 8 2
           (Some Examples.ex_prev) Examples.ex_dataset Examples.ex_algs 0 "a.jpg" []
           (Examples.ex_row "a.jpg" 0 20) eq_refl Hc).
Defined.

(** C2 fails as stated: the persisted file has a PyMedPhys row for
    [a.jpg] but none for PyLinac, and the runner calls the detection for
    both algorithms, PyMedPhys included. *)
Lemma process_row_recomputes_persisted_counterexample :
  In "PyMedPhys"
     (map algorithm (map fst (filter (fun r => String.eqb (r_filepath (fst r)) "a.jpg")
                                     (rows Examples.ex_prev)))) /\
  snd (process_row Examples.ex_calc "/db" 8 2 (Some Examples.ex_prev)
         Examples.ex_dataset Examples.ex_algs 0 "a.jpg" []) =
    [("/db/a.jpg", "PyMedPhys", (20, 20)); ("/db/a.jpg", "PyLinac", (20, 20))].
Proof. split; [left; reflexivity | vm_compute; reflexivity]. Qed.

Lemma rerun_reproduces_rows_witness :
  Batch.run_calculation Examples.ex_calc "/db" 8 2 None Examples.ex_dataset
    Examples.ex_algs [] = (Ok (Examples.ex_written Examples.ex_fresh),
                           snd Examples.ex_fresh) /\
  exists f2,
    Batch.run_calculation Examples.ex_calc "/db" 8 2
      (Some (Examples.ex_written Examples.ex_fresh)) Examples.ex_dataset
      Examples.ex_algs [] = (Ok f2, []) /\
    columns f2 = columns (Examples.ex_written Examples.ex_fresh) /\
    Permutation (rows f2) (rows (Examples.ex_written Examples.ex_fresh)) /\
    NoDup (rows f2).
Proof.
  assert (H : Batch.run_calculation Examples.ex_calc "/db" 8 2 None Examples.ex_dataset
    Examples.ex_algs [] = (Ok (Examples.ex_written Examples.ex_fresh),
                           snd Examples.ex_fresh)) by (vm_compute; reflexivity).
  split; [exact H |].
  exact (rerun_reproduces_rows Examples.ex_calc "/db" 8 2 Examples.ex_dataset
           Examples.ex_algs [] _ _ H []).
Defined.

Lemma In_crow_existsb (x : CRow) l :
  In x l <-> existsb (fun y => if crow_eq_dec y x then true else false) l = true.
Proof.
  rewrite existsb_exists. split.
  - intros Hx. exists x. split; [exact Hx |]. destruct (crow_eq_dec x x); congruence.
  - intros [y [Hy He]]. destruct (crow_eq_dec y x); [subst; exact Hy | discriminate].
Qed.

(** C3 fails as stated: over a persisted file holding a stale PyMedPhys
    result for [a.jpg], the first run writes three rows and the second
    run, over the first run's file, writes four: the stale result comes
    back merged with the current dataset row. *)
Lemma rerun_grows_table_counterexample :
  List.length (rows Examples.ex_first) = 3%nat /\
  List.length (rows Examples.ex_second) = 4%nat /\
  In (Examples.ex_stale, Examples.ex_row "a.jpg" 0 20) (rows Examples.ex_second) /\
  ~ In (Examples.ex_stale, Examples.ex_row "a.jpg" 0 20) (rows Examples.ex_first).
Proof.
  split; [vm_compute; reflexivity |]. split; [vm_compute; reflexivity |].
  rewrite !In_crow_existsb. split; [vm_compute; reflexivity |].
  vm_compute. discriminate.
Qed.

Lemma written_rows_no_exact_duplicates_witness :
  Batch.run_calculation Examples.ex_calc "/db" 8 2 (Some Examples.ex_prev)
    Examples.ex_dataset Examples.ex_algs [] =
    (Ok Examples.ex_first, snd (Examples.ex_run (Some Examples.ex_prev) Examples.ex_dataset)) /\
  NoDup (rows Examples.ex_first).
Proof.
  assert (H : Batch.run_calculation Examples.ex_calc "/db" 8 2 (Some Examples.ex_prev)
    Examples.ex_dataset Examples.ex_algs [] =
    (Ok Examples.ex_first, snd (Examples.ex_run (Some Examples.ex_prev) Examples.ex_dataset)))
    by (vm_compute; reflexivity).
  split; [exact H |].
  exact (written_rows_no_exact_duplicates Examples.ex_calc "/db" 8 2 _ _ _ _ _ _ H).
Defined.

(** C4 fails as stated: the first run over [ex_prev] writes two rows for
    ([a.jpg], PyMedPhys), the stale one and the recomputed one. *)
Lemma same_key_rows_counterexample :
  List.length (filter (fun r => String.eqb (r_filepath (fst r)) "a.jpg" &&
                                String.eqb (algorithm (fst r)) "PyMedPhys")
                      (rows Examples.ex_first)) = 2%nat.
Proof. vm_compute. reflexivity. Qed.

Lemma reversed_path_forward_geometry_witness :
  let D := Examples.ex_dataset2 in
  let d := Examples.ex_row "a.jpg" 0 0 in
  Batch.run_calculation Examples.ex_calc "/db" 8 2 None D Examples.ex_algs [] =
    (Ok (Examples.ex_written Examples.ex_fresh2), snd Examples.ex_fresh2) /\
  (1 < List.length D)%nat /\ (0 < List.length D)%nat /\
  In "PyMedPhys" Examples.ex_algs /\
  (width (nth 0 D d), length (nth 0 D d)) <>
    (width (nth (List.length D - 1 - 0) D d), length (nth (List.length D - 1 - 0) D d)) /\
  (In (_get_full_image_path "/db" (filepath (nth (List.length D - 1 - 0) D d)), "PyMedPhys",
       (width (nth 0 D d), length (nth 0 D d))) (snd Examples.ex_fresh2) /\
   exists e, In (_get_full_image_path "/db" (filepath (nth (List.length D - 1 - 0) D d)),
                 "PyMedPhys", e) (snd Examples.ex_fresh2) /\
             e <> (width (nth (List.length D - 1 - 0) D d),
                   length (nth (List.length D - 1 - 0) D d))).
Proof.
  intros D d.
  assert (H : Batch.run_calculation Examples.ex_calc "/db" 8 2 None D Examples.ex_algs [] =
    (Ok (Examples.ex_written Examples.ex_fresh2), snd Examples.ex_fresh2))
    by (vm_compute; reflexivity).
  assert (Hn : (1 < List.length D)%nat) by (simpl; lia).
  assert (Hi : (0 < List.length D)%nat) by (simpl; lia).
  assert (Ha : In "PyMedPhys" Examples.ex_algs) by (left; reflexivity).
  assert (Hd : (width (nth 0 D d), length (nth 0 D d)) <>
    (width (nth (List.length D - 1 - 0) D d), length (nth (List.length D - 1 - 0) D d)))
    by (vm_compute; discriminate).
  split; [exact H |]. split; [exact Hn |]. split; [exact Hi |].
  split; [exact Ha |]. split; [exact Hd |].
  exact (proj2 (reversed_path_forward_geometry Examples.ex_calc "/db" 8 2)
           D Examples.ex_algs [] _ _ 0%nat "PyMedPhys" d H Hn Hi Ha Hd).
Defined.

(** C6 fails as stated: the file the first run writes has the dataset
    columns besides the nine result columns, and a run over it is accepted
    and completes. *)
Lemma extra_columns_accepted_counterexample :
  columns Examples.ex_first = RESULTS_DATA_COLUMNS ++ META_COLUMNS /\
  columns Examples.ex_first <> RESULTS_DATA_COLUMNS /\
  fst (Examples.ex_run (Some Examples.ex_first) Examples.ex_dataset) =
    Ok Examples.ex_second.
Proof.
  split; [vm_compute; reflexivity |]. split; [vm_compute; discriminate |].
  vm_compute. reflexivity.
Qed.

End BatchFacts.

Module TransferCheckFacts.
Import TransferCheck.


Lemma lookup_dict_set {A} k k' (v : A) d :
  lookup k (dict_set k' v d) = if String.eqb k k' then Some v else lookup k d.
Proof.
  induction d as [| [k0 v0] d IH]; simpl.
  - reflexivity.
  - destruct (String.eqb k' k0) eqn:H0; simpl.
    + apply String.eqb_eq in H0. subst k0. destruct (String.eqb k k'); reflexivity.
    + rewrite IH. destruct (String.eqb k k') eqn:H1; [| reflexivity].
      apply String.eqb_eq in H1. subst k'. rewrite H0. reflexivity.
Qed.

Lemma keys_dict_set {A} k (v : A) d x :
  In x (map fst (dict_set k v d)) <-> x = k \/ In x (map fst d).
Proof.
  induction d as [| [k0 v0] d IH]; simpl.
  - intuition congruence.
  - destruct (String.eqb k k0) eqn:H0; simpl.
    + apply String.eqb_eq in H0. subst k0. intuition congruence.
    + rewrite IH. intuition congruence.
Qed.

Lemma NoDup_dict_set {A} k (v : A) d :
  NoDup (map fst d) -> NoDup (map fst (dict_set k v d)).
Proof.
  induction d as [| [k0 v0] d IH]; simpl; intros Hd.
  - repeat constructor. simpl. tauto.
  - inversion Hd as [| ? ? Hn Hd']; subst.
    destruct (String.eqb k k0) eqn:H0; simpl.
    + apply String.eqb_eq in H0. subst k0. constructor; assumption.
    + constructor; [| apply IH, Hd'].
      rewrite keys_dict_set. intros [-> | H]; [| contradiction].
      rewrite String.eqb_refl in H0. discriminate.
Qed.

Section Files.
Variable UploadedFile : Type.
Variable name : UploadedFile -> string.

Local Abbreviation step := (fun files dicomFile =>
    match patient_file_key (name dicomFile) with
    | Some k => dict_set k dicomFile files
    | None => files
    end).

Lemma get_patient_files_fold k fs acc :
  lookup k (fold_left step fs acc) =
  match hd_error (rev (filter (fun f => match patient_file_key (name f) with
                                        | Some k' => String.eqb k k'
                                        | None => false end) fs)) with
  | Some f => Some f
  | None => lookup k acc
  end.
Proof.
  revert acc; induction fs as [| f fs IH]; intros acc; simpl; [reflexivity |].
  rewrite IH.
  destruct (patient_file_key (name f)) as [k' |] eqn:Hk.
  - rewrite lookup_dict_set.
    destruct (String.eqb k k'); simpl; [| reflexivity].
    destruct (rev (filter _ fs)); reflexivity.
  - reflexivity.
Qed.

Lemma patient_file_key_values n k :
  patient_file_key n = Some k -> In k ["rp"; "rd"; "rs"; "ct"].
Proof.
  unfold patient_file_key.
  destruct (py_contains "RP" n); [intros [= <-]; simpl; tauto |].
  destruct (py_contains "RD" n); [intros [= <-]; simpl; tauto |].
  destruct (py_contains "RS" n); [intros [= <-]; simpl; tauto |].
  destruct (py_contains "CT" n); [intros [= <-]; simpl; tauto |].
  discriminate.
Qed.

Lemma get_patient_files_keys_fold fs acc :
  NoDup (map fst acc) -> incl (map fst acc) ["rp"; "rd"; "rs"; "ct"] ->
  NoDup (map fst (fold_left step fs acc)) /\
  incl (map fst (fold_left step fs acc)) ["rp"; "rd"; "rs"; "ct"].
Proof.
  revert acc; induction fs as [| f fs IH]; intros acc Hn Hi; simpl; [auto |].
  apply IH.
  - destruct (patient_file_key (name f)); [apply NoDup_dict_set |]; exact Hn.
  - destruct (patient_file_key (name f)) as [k |] eqn:Hk; [| exact Hi].
    intros x Hx. apply keys_dict_set in Hx. destruct Hx as [-> | Hx].
    + exact (patient_file_key_values _ _ Hk).
    + exact (Hi x Hx).
Qed.

(** X1: [get_patient_files] keeps one file per key, under the keys ["rp"],
    ["rd"], ["rs"] and ["ct"] only, and the file stored under a key is the
    last uploaded file whose name selects that key (["RP"] taking
    precedence over ["RD"], then ["RS"], then ["CT"]); a key no file
    selects is missing. *)
Theorem get_patient_files_last_wins (fs : list UploadedFile) :
  NoDup (map fst (get_patient_files UploadedFile name fs)) /\
  incl (map fst (get_patient_files UploadedFile name fs)) ["rp"; "rd"; "rs"; "ct"] /\
  (forall k, lookup k (get_patient_files UploadedFile name fs) =
     hd_error (rev (filter (fun f => match patient_file_key (name f) with
                                     | Some k' => String.eqb k k'
                                     | None => false end) fs))).
Proof.
  unfold get_patient_files.
  destruct (get_patient_files_keys_fold fs [] (NoDup_nil _) (incl_nil_l _)) as [H1 H2].
  split; [exact H1 | split; [exact H2 |]].
  intros k. rewrite get_patient_files_fold.
  destruct (hd_error _); reflexivity.
Qed.

End Files.

Lemma combine_seq_In {A} (l : list A) s i r :
  In (i, r) (combine (seq s (List.length l)) l) <->
  (s <= i)%nat /\ nth_error l (i - s) = Some r.
Proof.
  revert s; induction l as [| x l IH]; intros s; simpl.
  - split; [tauto | intros [_ H]; destruct (i - s)%nat; discriminate].
  - rewrite IH. split.
    + intros [[= <- <-] | [Hs Hn]].
      * rewrite Nat.sub_diag. auto.
      * split; [lia |]. replace (i - s)%nat with (S (i - S s)) by lia. exact Hn.
    + intros [Hs Hn]. destruct (Nat.eq_dec i s) as [-> | Hne].
      * rewrite Nat.sub_diag in Hn. simpl in Hn. inversion Hn; subst. left; reflexivity.
      * right. split; [lia |].
        replace (i - s)%nat with (S (i - S s)) in Hn by lia. exact Hn.
Qed.

Lemma map_snd_combine_seq {A} (l : list A) s :
  map snd (combine (seq s (List.length l)) l) = l.
Proof.
  revert s; induction l as [| x l IH]; intros s; simpl; [reflexivity |].
  rewrite IH. reflexivity.
Qed.

Lemma existsb_nat_In i l : existsb (Nat.eqb i) l = true <-> In i l.
Proof.
  rewrite existsb_exists. split.
  - intros [x [Hx He]]. apply Nat.eqb_eq in He. subst. exact Hx.
  - intros H. exists i. split; [exact H | apply Nat.eqb_refl].
Qed.

Lemma existsb_string_In s l : existsb (String.eqb s) l = true <-> In s l.
Proof.
  rewrite existsb_exists. split.
  - intros [x [Hx He]]. apply String.eqb_eq in He. subst. exact Hx.
  - intros H. exists s. split; [exact H | apply String.eqb_refl].
Qed.

Lemma map_snd_filter {A B} (g : B -> bool) (l : list (A * B)) :
  map snd (filter (fun ir => g (snd ir)) l) = filter g (map snd l).
Proof.
  induction l as [| [a b] l IH]; simpl; [reflexivity |].
  destruct (g b); simpl; rewrite IH; reflexivity.
Qed.

Lemma Permutation_filter_map {A} (f : A -> bool) (l l' : list A) :
  Permutation l l' -> Permutation (filter f l) (filter f l').
Proof.
  induction 1 as [| x l l' _ IH | x y l | l l' l'' _ IH1 _ IH2]; simpl.
  - constructor.
  - destruct (f x); [apply perm_skip |]; exact IH.
  - destruct (f x), (f y); try apply perm_swap; try apply perm_skip;
      apply Permutation_refl.
  - exact (perm_trans IH1 IH2).
Qed.

Lemma filter_filter_and {A} (f g : A -> bool) (l : list A) :
  filter f (filter g l) = filter (fun x => g x && f x) l.
Proof.
  induction l as [| x l IH]; simpl; [reflexivity |].
  destruct (g x); simpl; [destruct (f x); simpl |]; rewrite IH; reflexivity.
Qed.

(** The rows [drop_irrelevant_mosaiq_fields] keeps before sorting: those
    whose [field_label] is a DICOM field label. *)
Lemma drop_irrelevant_kept (dicom_table : list (nat * DicomRow))
    (mosaiq_table : list MosaiqRow) :
  let DL := map (fun ir => d_field_label (snd ir)) dicom_table in
  let index :=
    flat_map (fun j =>
      flat_map (fun ir => if String.eqb (m_field_label (snd ir)) j then [fst ir] else [])
               (enumerate mosaiq_table)) DL in
  let remove :=
    filter (fun i => negb (existsb (Nat.eqb i) index))
           (map fst (enumerate mosaiq_table)) in
  filter (fun ir => negb (existsb (Nat.eqb (fst ir)) remove))
         (enumerate mosaiq_table) =
  filter (fun ir => existsb (String.eqb (m_field_label (snd ir))) DL)
         (enumerate mosaiq_table).
Proof.
  intros DL index remove. apply filter_ext_in. intros [i r] Hir. simpl.
  unfold enumerate in Hir.
  apply eq_true_iff_eq. rewrite negb_true_iff, existsb_string_In.
  rewrite <- not_true_iff_false, existsb_nat_In.
  unfold remove. rewrite filter_In, negb_true_iff, <- not_true_iff_false,
    existsb_nat_In.
  assert (Hfst : In i (map fst (enumerate mosaiq_table))).
  { apply in_map_iff. exists (i, r). split; [reflexivity | exact Hir]. }
  assert (Hidx : In i index <-> In (m_field_label r) DL).
  { unfold index. rewrite in_flat_map. split.
    - intros [j [Hj Hin]]. apply in_flat_map in Hin.
      destruct Hin as [[i' r'] [Hir' Hin]]. simpl in Hin.
      destruct (String.eqb (m_field_label r') j) eqn:He; [| destruct Hin].
      destruct Hin as [<- | []]. apply String.eqb_eq in He. subst j.
      unfold enumerate in Hir'.
      apply combine_seq_In in Hir, Hir'.
      destruct Hir as [_ H1], Hir' as [_ H2]. rewrite H1 in H2.
      inversion H2; subst. exact Hj.
    - intros Hj. exists (m_field_label r). split; [exact Hj |].
      apply in_flat_map. exists (i, r). split; [exact Hir |].
      simpl. rewrite String.eqb_refl. left; reflexivity. }
  rewrite <- Hidx. destruct (in_dec Nat.eq_dec i index); tauto.
Qed.

(** X2: [drop_irrelevant_mosaiq_fields] followed by
    [limit_mosaiq_info_to_current_versions] keeps, up to order, exactly
    the Mosaiq rows whose field label is one of the DICOM field labels and
    whose site, site setup and field versions are all 0; the sort's order
    of equal labels does not change which rows are kept. *)
Theorem current_relevant_mosaiq_rows
    (sort_values_by_field_label : list (nat * MosaiqRow) -> list (nat * MosaiqRow))
    (Hsort : forall l, Permutation (sort_values_by_field_label l) l)
    (dicom_table : list (nat * DicomRow)) (mosaiq_table : list MosaiqRow) :
  Permutation
    (limit_mosaiq_info_to_current_versions
       (drop_irrelevant_mosaiq_fields sort_values_by_field_label dicom_table
          mosaiq_table))
    (filter (fun r => existsb (String.eqb (m_field_label r))
                        (map (fun ir => d_field_label (snd ir)) dicom_table) &&
                      Z.eqb (m_site_version r) 0 &&
                      Z.eqb (m_site_setup_version r) 0 &&
                      Z.eqb (m_field_version r) 0) mosaiq_table).
Proof.
  unfold limit_mosaiq_info_to_current_versions, drop_irrelevant_mosaiq_fields.
  rewrite (drop_irrelevant_kept dicom_table mosaiq_table).
  set (DL := map (fun ir => d_field_label (snd ir)) dicom_table).
  set (cur := fun r => Z.eqb (m_site_version r) 0 &&
                       Z.eqb (m_site_setup_version r) 0 &&
                       Z.eqb (m_field_version r) 0).
  set (lab := fun r => existsb (String.eqb (m_field_label r)) DL).
  transitivity (map snd (filter (fun ir => cur (snd ir))
                   (filter (fun ir => lab (snd ir)) (enumerate mosaiq_table)))).
  - apply Permutation_map, Permutation_filter_map, Hsort.
  - rewrite map_snd_filter, map_snd_filter.
    unfold enumerate. rewrite map_snd_combine_seq, filter_filter_and.
    apply Permutation_refl'. apply filter_ext. intros r.
    unfold lab, cur. rewrite !andb_assoc. reflexivity.
Qed.

Local Open Scope string_scope.


Lemma string_app_nil_r (a : string) : a ++ "" = a.
Proof. induction a as [| c a IH]; simpl; [reflexivity | rewrite IH; reflexivity]. Qed.

Lemma string_app_assoc (a b c : string) : a ++ b ++ c = (a ++ b) ++ c.
Proof. induction a as [| x a IH]; simpl; [reflexivity | rewrite IH; reflexivity]. Qed.

Lemma substring_prefix_app a b n :
  substring 0 (String.length a + n) (a ++ b) = a ++ substring 0 n b.
Proof. induction a as [| c a IH]; simpl; [reflexivity | rewrite IH; reflexivity]. Qed.

Lemma substring_skip_app a b k m :
  substring (String.length a + k) m (a ++ b) = substring k m b.
Proof. induction a as [| c a IH]; simpl; [reflexivity | exact IH]. Qed.

Lemma substring_whole_app a b :
  substring 0 (String.length a) (a ++ b) = a.
Proof.
  rewrite <- (Nat.add_0_r (String.length a)), substring_prefix_app.
  destruct b; simpl; apply string_app_nil_r.
Qed.

Lemma append_cancel a a' b b' :
  String.length a = String.length a' -> a ++ b = a' ++ b' -> a = a' /\ b = b'.
Proof.
  revert a'; induction a as [| c a IH]; intros [| c' a'] Hl H; simpl in *;
    try discriminate; [auto |].
  inversion H; subst. destruct (IH a' ltac:(lia) H2) as [-> ->]. auto.
Qed.

Lemma ui_bind_emit {A} m (k : unit -> UI A) out :
  ui_bind (emit m) k out = k tt (out ++ [m])%list.
Proof. reflexivity. Qed.

(** The four messages of [verify_basic_patient_info] when both row 0
    exist and the dates have the forms [YYYYMMDD...] and [YYYY-MM-DD...]. *)
Lemma verify_messages_dates (dicom_table : list (nat * DicomRow))
    (d0 : DicomRow) (m0 : MosaiqRow) (rest : list MosaiqRow) (mrn : string)
    (y mo dd r y' mo' dd' r' : string) (out : list st_msg)
    (Hd0 : loc0_labelled dicom_table = ROk d0)
    (Hdob : d_dob d0 = y ++ mo ++ dd ++ r)
    (Hmdob : m_dob m0 = y' ++ "-" ++ mo' ++ "-" ++ dd' ++ r')
    (Hlen : String.length y = 4%nat /\ String.length y' = 4%nat /\
            String.length mo = 2%nat /\ String.length mo' = 2%nat /\
            String.length dd = 2%nat /\ String.length dd' = 2%nat) :
  verify_basic_patient_info dicom_table (m0 :: rest) mrn out =
  (ROk tt,
   out ++ [st_subheader "Patient:";
           if String.eqb (d_first_name d0 ++ " " ++ d_last_name d0)
                         (m_first_name m0 ++ " " ++ m_last_name m0)
           then st_success ("Name: " ++ d_first_name d0 ++ " " ++ d_last_name d0)
           else st_error ("Name: " ++ d_first_name d0 ++ " " ++ d_last_name d0);
           if String.eqb mrn (m_mrn m0)
           then st_success ("MRN: " ++ mrn) else st_error ("MRN: " ++ mrn);
           if String.eqb (y ++ mo ++ dd) (y' ++ mo' ++ dd')
           then st_success ("DOB: " ++ y' ++ "-" ++ mo' ++ "-" ++ dd')
           else st_error ("DOB: " ++ y' ++ "-" ++ mo' ++ "-" ++ dd')])%list.
Proof.
  destruct Hlen as [Hy [Hy' [Hmo [Hmo' [Hdd Hdd']]]]].
  assert (HD : py_slice (m_dob m0) 0 10 = y' ++ "-" ++ mo' ++ "-" ++ dd').
  { unfold py_slice. rewrite Hmdob. simpl (10 - 0)%nat.
    replace 10%nat with (String.length y' + (1 + (String.length mo' +
                         (1 + String.length dd'))))%nat by lia.
    rewrite substring_prefix_app. simpl.
    rewrite substring_prefix_app. simpl.
    rewrite substring_whole_app. reflexivity. }
  assert (HY : py_slice (d_dob d0) 0 4 = y).
  { unfold py_slice. rewrite Hdob. simpl (4 - 0)%nat. rewrite <- Hy.
    apply substring_whole_app. }
  assert (HM : py_slice (d_dob d0) 4 6 = mo).
  { unfold py_slice. rewrite Hdob. simpl (6 - 4)%nat.
    replace 4%nat with (String.length y + 0)%nat by lia.
    rewrite substring_skip_app. rewrite <- Hmo. apply substring_whole_app. }
  assert (HDD : py_slice (d_dob d0) 6 8 = dd).
  { unfold py_slice. rewrite Hdob. simpl (8 - 6)%nat.
    replace 6%nat with (String.length y + (String.length mo + 0))%nat by lia.
    rewrite substring_skip_app, substring_skip_app.
    rewrite <- Hdd. apply substring_whole_app. }
  unfold verify_basic_patient_info. cbv [ui_bind ui_lift emit].
  rewrite Hd0. simpl loc0. cbv beta iota.
  rewrite HD, HY, HM, HDD. rewrite <- !app_assoc. simpl.
  assert (Heq : String.eqb (y' ++ "-" ++ mo' ++ "-" ++ dd') (y ++ "-" ++ mo ++ "-" ++ dd)
                = String.eqb (y ++ mo ++ dd) (y' ++ mo' ++ dd')).
  { apply eq_true_iff_eq. rewrite !String.eqb_eq. split; intros E.
    - destruct (append_cancel y' y _ _ ltac:(lia) E) as [<- E'].
      simpl in E'. injection E' as E3.
      destruct (append_cancel mo' mo _ _ ltac:(lia) E3) as [<- E4].
      simpl in E4. injection E4 as E5. subst. reflexivity.
    - destruct (append_cancel y y' _ _ ltac:(lia) E) as [<- E'].
      destruct (append_cancel mo mo' _ _ ltac:(lia) E') as [<- E4].
      rewrite <- (string_app_nil_r dd), <- (string_app_nil_r dd') in E4.
      destruct (append_cancel dd dd' _ _ ltac:(lia) E4) as [<- _]. reflexivity. }
  simpl in Heq. rewrite Heq. reflexivity.
Qed.

(** X3: [verify_basic_patient_info] first shows the subheader.  Without a
    DICOM row labelled 0 it then raises that lookup's [KeyError]; with one
    but an empty Mosaiq table it raises [KeyError] on [loc[0]]; with both
    it shows exactly three more messages, the name, MRN and date checks,
    each a success or an error.  For a DICOM date [YYYYMMDD...] and a
    Mosaiq date whose text starts [YYYY-MM-DD], the date check succeeds
    exactly when year, month and day agree, whatever follows them. *)
Theorem verify_basic_patient_info_messages (dicom_table : list (nat * DicomRow))
    (mosaiq_table : list MosaiqRow) (mrn : string) (out : list st_msg) :
  (forall e, loc0_labelled dicom_table = RErr e ->
     verify_basic_patient_info dicom_table mosaiq_table mrn out =
     (RErr e, out ++ [st_subheader "Patient:"])%list) /\
  (forall d0, loc0_labelled dicom_table = ROk d0 -> mosaiq_table = [] ->
     verify_basic_patient_info dicom_table mosaiq_table mrn out =
     (RErr (TKeyError "0"), out ++ [st_subheader "Patient:"])%list) /\
  (forall d0 m0 rest, loc0_labelled dicom_table = ROk d0 ->
     mosaiq_table = m0 :: rest ->
     exists dob_ok : bool,
     verify_basic_patient_info dicom_table mosaiq_table mrn out =
     (ROk tt,
      out ++ [st_subheader "Patient:";
              if String.eqb (d_first_name d0 ++ " " ++ d_last_name d0)
                            (m_first_name m0 ++ " " ++ m_last_name m0)
              then st_success ("Name: " ++ d_first_name d0 ++ " " ++ d_last_name d0)
              else st_error ("Name: " ++ d_first_name d0 ++ " " ++ d_last_name d0);
              if String.eqb mrn (m_mrn m0)
              then st_success ("MRN: " ++ mrn) else st_error ("MRN: " ++ mrn);
              if dob_ok then st_success ("DOB: " ++ py_slice (m_dob m0) 0 10)
              else st_error ("DOB: " ++ py_slice (m_dob m0) 0 10)])%list) /\
  (forall d0 m0 rest y mo dd r y' mo' dd' r',
     loc0_labelled dicom_table = ROk d0 -> mosaiq_table = m0 :: rest ->
     d_dob d0 = y ++ mo ++ dd ++ r ->
     m_dob m0 = y' ++ "-" ++ mo' ++ "-" ++ dd' ++ r' ->
     String.length y = 4%nat /\ String.length y' = 4%nat /\
     String.length mo = 2%nat /\ String.length mo' = 2%nat /\
     String.length dd = 2%nat /\ String.length dd' = 2%nat ->
     verify_basic_patient_info dicom_table mosaiq_table mrn out =
     (ROk tt,
      out ++ [st_subheader "Patient:";
              if String.eqb (d_first_name d0 ++ " " ++ d_last_name d0)
                            (m_first_name m0 ++ " " ++ m_last_name m0)
              then st_success ("Name: " ++ d_first_name d0 ++ " " ++ d_last_name d0)
              else st_error ("Name: " ++ d_first_name d0 ++ " " ++ d_last_name d0);
              if String.eqb mrn (m_mrn m0)
              then st_success ("MRN: " ++ mrn) else st_error ("MRN: " ++ mrn);
              if String.eqb (y ++ mo ++ dd) (y' ++ mo' ++ dd')
              then st_success ("DOB: " ++ y' ++ "-" ++ mo' ++ "-" ++ dd')
              else st_error ("DOB: " ++ y' ++ "-" ++ mo' ++ "-" ++ dd')])%list).
Proof.
  split; [| split; [| split]].
  - intros e He. unfold verify_basic_patient_info. cbv [ui_bind ui_lift emit].
    rewrite He. reflexivity.
  - intros d0 Hd0 ->. unfold verify_basic_patient_info. cbv [ui_bind ui_lift emit].
    rewrite Hd0. reflexivity.
  - intros d0 m0 rest Hd0 ->.
    exists (String.eqb (py_slice (m_dob m0) 0 10)
              (py_slice (d_dob d0) 0 4 ++ "-" ++ py_slice (d_dob d0) 4 6 ++ "-" ++
               py_slice (d_dob d0) 6 8)).
    unfold verify_basic_patient_info. cbv [ui_bind ui_lift emit].
    rewrite Hd0. simpl loc0. cbv beta iota.
    rewrite <- !app_assoc. reflexivity.
  - intros d0 m0 rest y mo dd r y' mo' dd' r' Hd0 -> Hdob Hmdob Hlen.
    exact (verify_messages_dates dicom_table d0 m0 rest mrn y mo dd r y' mo' dd' r'
             out Hd0 Hdob Hmdob Hlen).
Qed.


Section Staff.
Variable get_staff_initials : string -> result (list (list string)).
Variable SITE_CONSTANTS : list (Z * string).

(** X4: [check_site_approval] on a non-empty Mosaiq table whose site setups
    and sites are all approved (status 5): after the subheader and "Site
    Setup Approved", it shows "RX Approved by" with the first initial
    returned for [create_id] of row 0 only when that lookup returns a
    non-empty first row.  A [None] id raises [UnboundLocalError]; a NaN id,
    a lookup error it catches, or an empty lookup result raises
    [IndexError]; a lookup error it does not catch is raised before the
    site setup message. *)
Theorem check_site_approval_rx_outcome (m0 : MosaiqRow) (rest : list MosaiqRow)
    (out : list st_msg)
    (Hsetup : forallb (fun i => Z.eqb i 5) (map m_site_setup_status (m0 :: rest)) = true)
    (Hsite : forallb (fun i => Z.eqb i 5) (map m_site_status (m0 :: rest)) = true) :
  let pre := (out ++ [st_subheader "Approval Status:"; st_success "Site Setup Approved"])%list in
  check_site_approval get_staff_initials SITE_CONSTANTS (m0 :: rest) out =
  match m_create_id m0 with
  | PyNone => (RErr (TUnboundLocalError "site_initials"), pre)
  | PyNum NaN => (RErr TIndexError, pre)
  | PyNum (Fl z) =>
      match get_staff_initials (py_str_int z) with
      | ROk ((x :: _) :: _) => (ROk tt, (pre ++ [st_success ("RX Approved by " ++ x)])%list)
      | ROk _ => (RErr TIndexError, pre)
      | RErr e =>
          if caught e then (RErr TIndexError, pre)
          else (RErr e, (out ++ [st_subheader "Approval Status:"])%list)
      end
  end.
Proof.
  intros pre. unfold check_site_approval. cbv zeta.
  rewrite Hsetup, Hsite.
  cbv [ui_bind ui_lift emit ui_ret loc0 site_initials_of rbind]. unfold pre.
  destruct (m_create_id m0) as [| [z |]]; simpl; rewrite <- ?app_assoc;
    try reflexivity.
  destruct (get_staff_initials (py_str_int z)) as [rs | e]; simpl.
  - destruct rs as [| [| x xs] rows]; simpl; rewrite <- ?app_assoc; reflexivity.
  - destruct (caught e); simpl; rewrite <- ?app_assoc; reflexivity.
Qed.

(** X5: [check_for_field_approval]: with no Mosaiq row of the selected field
    name (no field selected included) it raises [IndexError]; a [None] or
    NaN approval id, or a lookup error it catches, shows "This field is not
    approved."; an empty lookup result raises [IndexError] (not caught);
    otherwise it shows the first initial of the first row returned. *)
Theorem check_for_field_approval_outcome (mosaiq_table : list MosaiqRow)
    (field_selection : option string) (out : list st_msg) :
  check_for_field_approval get_staff_initials mosaiq_table field_selection out =
  match filter (fun r => opt_eqb (m_field_name r) field_selection) mosaiq_table with
  | [] => (RErr TIndexError, out)
  | r :: _ =>
      match m_field_approval r with
      | PyNone | PyNum NaN =>
          (ROk tt, (out ++ [st_write ["This field is not approved."]])%list)
      | PyNum (Fl z) =>
          match get_staff_initials (py_str_int z) with
          | ROk ((x :: _) :: _) =>
              (ROk tt, (out ++ [st_write ["**Field Approved by: **"; x]])%list)
          | ROk _ => (RErr TIndexError, out)
          | RErr e =>
              if caught e
              then (ROk tt, (out ++ [st_write ["This field is not approved."]])%list)
              else (RErr e, out)
          end
      end
  end.
Proof.
  unfold check_for_field_approval.
  destruct (filter _ mosaiq_table) as [| r rs]; simpl; [reflexivity |].
  destruct (m_field_approval r) as [| [z |]]; simpl; try reflexivity.
  destruct (get_staff_initials (py_str_int z)) as [[| [| x xs] rows] | e]; simpl;
    try reflexivity.
  destruct (caught e); reflexivity.
Qed.

End Staff.

(** X6: A successful [select_field_for_comparison] returns a non-empty
    [selected_label] (so the [len(selected_label) != 0] test of [main] is
    never false), a selected field, and the name of a DICOM field whose
    label is the first selected label; every selected label is the label
    of a Mosaiq row of the selected field. *)
Theorem select_field_result (dicom_table : list (nat * DicomRow))
    (mosaiq_table : list MosaiqRow) (rx_choice field_choice : nat)
    (field_selection : option string) (selected_label : list string)
    (dicom_field_selection : string)
    (Hsel : select_field_for_comparison dicom_table mosaiq_table rx_choice field_choice
            = ROk (field_selection, selected_label, dicom_field_selection)) :
  (exists label0 labels, selected_label = label0 :: labels /\
     exists ir, In ir dicom_table /\ d_field_label (snd ir) = label0 /\
                d_field_name (snd ir) = dicom_field_selection) /\
  (exists f, field_selection = Some f /\
     forall l, In l selected_label ->
       exists r, In r mosaiq_table /\ m_field_name r = f /\ m_field_label r = l).
Proof.
  unfold select_field_for_comparison in Hsel.
  set (fs := radio _ field_choice) in Hsel.
  set (sl := map m_field_label _) in Hsel.
  destruct sl as [| l0 ls] eqn:Hsl; [discriminate |]. simpl in Hsel.
  set (dl := map (fun ir => d_field_name (snd ir)) _) in Hsel.
  destruct dl as [| d0 ds] eqn:Hdl; [discriminate |]. simpl in Hsel.
  injection Hsel as <- <- <-. split.
  - exists l0, ls. split; [reflexivity |].
    assert (Hin : In d0 dl) by (rewrite Hdl; left; reflexivity).
    unfold dl in Hin. apply in_map_iff in Hin.
    destruct Hin as [ir [Hn Hir]]. apply filter_In in Hir.
    destruct Hir as [Hir Hl]. apply String.eqb_eq in Hl.
    exists ir. auto.
  - destruct fs as [f |] eqn:Hfs.
    + exists f. split; [reflexivity |]. intros l Hl.
      rewrite <- Hsl in Hl. unfold sl in Hl. apply in_map_iff in Hl.
      destruct Hl as [r [<- Hr]]. apply filter_In in Hr.
      destruct Hr as [Hr Hn]. simpl in Hn. apply String.eqb_eq in Hn.
      exists r. auto.
    + exfalso. unfold sl in Hsl. clear - Hsl.
      induction mosaiq_table as [| r rs IH]; simpl in Hsl; [discriminate | exact (IH Hsl)].
Qed.

(** X7: [select_field_for_comparison] succeeds when every Mosaiq row's field
    label is a DICOM field label (as after [drop_irrelevant_mosaiq_fields])
    and both radio choices are options that exist. *)
Theorem select_field_succeeds (dicom_table : list (nat * DicomRow))
    (mosaiq_table : list MosaiqRow) (rx_choice field_choice : nat)
    (Hlabels : forall r, In r mosaiq_table ->
       In (m_field_label r) (map (fun ir => d_field_label (snd ir)) dicom_table))
    (Hrx : (rx_choice < List.length (Batch.unique (map m_site mosaiq_table)))%nat)
    (Hfield : forall site,
       radio (Batch.unique (map m_site mosaiq_table)) rx_choice = Some site ->
       (field_choice < List.length (filter (fun r => String.eqb (m_site r) site)
                                           mosaiq_table))%nat) :
  exists field_selection selected_label dicom_field_selection,
    select_field_for_comparison dicom_table mosaiq_table rx_choice field_choice
    = ROk (field_selection, selected_label, dicom_field_selection).
Proof.
  unfold select_field_for_comparison.
  destruct (radio (Batch.unique (map m_site mosaiq_table)) rx_choice) as [site |] eqn:Hsite.
  2:{ exfalso. unfold radio in Hsite. apply nth_error_None in Hsite. lia. }
  specialize (Hfield site eq_refl).
  set (rx_fields := map m_field_name
                      (filter (fun r => opt_eqb (m_site r) (Some site)) mosaiq_table)).
  destruct (radio rx_fields field_choice) as [f |] eqn:Hf.
  2:{ exfalso. unfold radio in Hf. apply nth_error_None in Hf.
      unfold rx_fields in Hf. rewrite length_map in Hf. simpl in Hf. lia. }
  assert (Hfin : In f rx_fields) by (eapply nth_error_In; exact Hf).
  unfold rx_fields in Hfin. apply in_map_iff in Hfin.
  destruct Hfin as [r [Hrf Hr]]. apply filter_In in Hr. destruct Hr as [Hr _].
  destruct (filter (fun r0 => opt_eqb (m_field_name r0) (Some f)) mosaiq_table)
    as [| r0 rs0] eqn:Hsl.
  { exfalso. assert (Hin : In r (filter (fun r0 => opt_eqb (m_field_name r0) (Some f))
                                        mosaiq_table)).
    { apply filter_In. split; [exact Hr | simpl; apply String.eqb_eq; exact Hrf]. }
    rewrite Hsl in Hin. destruct Hin. }
  assert (Hr0 : In r0 mosaiq_table).
  { assert (Hin : In r0 (r0 :: rs0)) by (left; reflexivity).
    rewrite <- Hsl in Hin. apply filter_In in Hin. tauto. }
  simpl.
  destruct (filter (fun ir => String.eqb (d_field_label (snd ir)) (m_field_label r0))
                   dicom_table) as [| ir irs] eqn:Hd.
  { exfalso. destruct (proj1 (in_map_iff _ _ _) (Hlabels r0 Hr0)) as [ir [Hl Hir]].
    assert (Hin : In ir (filter (fun ir => String.eqb (d_field_label (snd ir))
                                             (m_field_label r0)) dicom_table)).
    { apply filter_In. split; [exact Hir | apply String.eqb_eq; exact Hl]. }
    rewrite Hd in Hin. destruct Hin. }
  simpl. eexists _, _, _. reflexivity.
Qed.




Lemma string_length_app (a b : string) :
  String.length (a ++ b) = (String.length a + String.length b)%nat.
Proof. induction a as [| c a IH]; simpl; [reflexivity | rewrite IH; reflexivity]. Qed.



Lemma plain_alias_app a b :
  plain_alias (a ++ b) = plain_alias a && plain_alias b.
Proof.
  induction a as [| c a IH]; simpl; [reflexivity | rewrite IH, andb_assoc; reflexivity].
Qed.

Lemma plain_char_not (c : ascii) :
  plain_alias_char c = true ->
  Ascii.eqb c "," = false /\ Ascii.eqb c "'" = false /\ Ascii.eqb c "\" = false /\
  (32 <= nat_of_ascii c <= 126)%nat.
Proof.
  unfold plain_alias_char. intros H.
  repeat (apply andb_prop in H; destruct H as [H ?]).
  apply negb_true_iff in H0, H1, H2.
  apply Nat.leb_le in H, H3. auto.
Qed.

Lemma py_contains_quote_plain s :
  plain_alias s = true -> py_contains "'" s = false.
Proof.
  induction s as [| c s IH]; intros H; [reflexivity |].
  simpl in H. apply andb_prop in H. destruct H as [Hc Hs].
  destruct (plain_char_not c Hc) as [_ [Hq _]].
  change (py_contains "'" (String c s)) with
    (String.prefix "'" (String c s) || py_contains "'" s).
  unfold String.prefix.
  destruct (ascii_dec "'" c) as [E | _].
  - subst c. discriminate.
  - apply IH, Hs.
Qed.

Lemma py_repr_body_plain s :
  plain_alias s = true -> py_repr_body "'" s = s.
Proof.
  induction s as [| c s IH]; simpl; [reflexivity |].
  intros H. apply andb_prop in H. destruct H as [Hc Hs].
  destruct (plain_char_not c Hc) as [_ [Hq [Hb Hn]]].
  unfold py_char_repr. rewrite Hb, Hq.
  destruct (nat_of_ascii c =? 9)%nat eqn:E9; [apply Nat.eqb_eq in E9; lia |].
  destruct (nat_of_ascii c =? 10)%nat eqn:E10; [apply Nat.eqb_eq in E10; lia |].
  destruct (nat_of_ascii c =? 13)%nat eqn:E13; [apply Nat.eqb_eq in E13; lia |].
  destruct (nat_of_ascii c <? 32)%nat eqn:E32; [apply Nat.ltb_lt in E32; lia |].
  destruct (nat_of_ascii c =? 127)%nat eqn:E127; [apply Nat.eqb_eq in E127; lia |].
  simpl. rewrite IH by exact Hs. reflexivity.
Qed.

Lemma py_str_repr_plain s :
  plain_alias s = true -> py_str_repr s = String "'" (s ++ "'").
Proof.
  intros H. unfold py_str_repr. rewrite py_contains_quote_plain by exact H.
  simpl. rewrite py_repr_body_plain by exact H. reflexivity.
Qed.

Lemma split_app_comma a b :
  ~ In ","%char (list_ascii_of_string a) ->
  py_split_comma (a ++ String "," b) = a :: py_split_comma b.
Proof.
  induction a as [| c a IH]; simpl; intros Hn; [reflexivity |].
  rewrite IH by tauto.
  destruct (Ascii.eqb c ",") eqn:E; [| reflexivity].
  apply Ascii.eqb_eq in E. subst c. tauto.
Qed.

Lemma split_no_comma a :
  ~ In ","%char (list_ascii_of_string a) -> py_split_comma a = [a].
Proof.
  induction a as [| c a IH]; simpl; intros Hn; [reflexivity |].
  rewrite IH by tauto.
  destruct (Ascii.eqb c ",") eqn:E; [| reflexivity].
  apply Ascii.eqb_eq in E. subst c. tauto.
Qed.

Lemma plain_no_comma s :
  plain_alias s = true -> ~ In ","%char (list_ascii_of_string s).
Proof.
  induction s as [| c s IH]; simpl; [tauto |].
  intros H. apply andb_prop in H. destruct H as [Hc Hs].
  destruct (plain_char_not c Hc) as [Hcomma _].
  intros [E | Hin]; [subst c; discriminate | exact (IH Hs Hin)].
Qed.

Lemma quoted_no_comma s :
  plain_alias s = true -> ~ In ","%char (list_ascii_of_string (String "'" (s ++ "'"))).
Proof.
  intros H. pose proof (plain_no_comma _ H) as Hn. simpl.
  intros [E | Hin]; [discriminate |].
  induction s as [| c s IH]; simpl in *.
  - destruct Hin as [E | []]; discriminate.
  - apply andb_prop in H. destruct H as [_ Hs].
    destruct Hin as [E | Hin]; [apply Hn; left; exact E |].
    exact (IH Hs (fun H' => Hn (or_intror H')) Hin).
Qed.

Local Abbreviation quote s := (String "'" (s ++ "'")).

Lemma split_quoted_items s l :
  plain_alias s = true -> forallb plain_alias l = true ->
  py_split_comma (String.concat ", " (map (fun s => quote s) (s :: l))) =
  quote s :: map (fun x => String " " (quote x)) l.
Proof.
  revert s; induction l as [| s' l IH]; intros s Hs Hl.
  - apply (split_no_comma (quote s)), quoted_no_comma, Hs.
  - simpl in Hl. apply andb_prop in Hl. destruct Hl as [Hs' Hl].
    change (String.concat ", " (map (fun s => quote s) (s :: s' :: l)))
      with (quote s ++ ", " ++ String.concat ", " (map (fun s => quote s) (s' :: l))).
    change (", " ++ ?X) with (String "," (String " " X)).
    rewrite split_app_comma by (apply quoted_no_comma, Hs).
    cbn [py_split_comma Ascii.eqb Bool.eqb]. rewrite (IH s' Hs' Hl). reflexivity.
Qed.

Lemma remove_quotes_app a b : remove_quotes (a ++ b) = remove_quotes a ++ remove_quotes b.
Proof.
  induction a as [| c a IH]; simpl; [reflexivity |].
  destruct (Ascii.eqb c "'"); simpl; rewrite IH; reflexivity.
Qed.

Lemma remove_quotes_plain s : plain_alias s = true -> remove_quotes s = s.
Proof.
  induction s as [| c s IH]; simpl; [reflexivity |].
  intros H. apply andb_prop in H. destruct H as [Hc Hs].
  destruct (plain_char_not c Hc) as [_ [Hq _]]. rewrite Hq, IH by exact Hs.
  reflexivity.
Qed.

Lemma parse_alias_cell_plain l :
  l <> [] -> forallb plain_alias l = true ->
  parse_alias_cell (py_list_repr l) = map Scorer.py_strip_spaces l.
Proof.
  intros Hne Hl. destruct l as [| s l]; [contradiction |].
  simpl in Hl. apply andb_prop in Hl. destruct Hl as [Hs Hl].
  unfold parse_alias_cell, py_list_repr.
  assert (Hmap : map py_str_repr (s :: l) = map (fun s => quote s) (s :: l)).
  { simpl. f_equal; [apply py_str_repr_plain, Hs |].
    clear - Hl. induction l as [| x l IH]; simpl in *; [reflexivity |].
    apply andb_prop in Hl. destruct Hl as [Hx Hl].
    rewrite py_str_repr_plain, IH by assumption. reflexivity. }
  rewrite Hmap.
  set (X := String.concat ", " (map (fun s => quote s) (s :: l))).
  assert (Hslice : py_slice ("[" ++ X ++ "]") 1
                     (String.length ("[" ++ X ++ "]") - 1) = X).
  { unfold py_slice. simpl.
    rewrite string_length_app. simpl.
    replace (String.length X + 1 - 0 - 1)%nat with (String.length X) by lia.
    apply substring_whole_app. }
  rewrite Hslice. unfold X. rewrite split_quoted_items by assumption.
  simpl. f_equal.
  - rewrite remove_quotes_app, remove_quotes_plain by exact Hs. simpl.
    rewrite string_app_nil_r. reflexivity.
  - clear - Hl. induction l as [| x l IH]; simpl in *; [reflexivity |].
    apply andb_prop in Hl. destruct Hl as [Hx Hl]. rewrite IH by exact Hl.
    f_equal. rewrite remove_quotes_app, remove_quotes_plain by exact Hx. simpl.
    rewrite string_app_nil_r. reflexivity.
Qed.

(** X8: Writing the alias table with [to_csv] and reading it back with
    [get_structure_aliases] gives every structure its aliases stripped of
    spaces, when each alias list is non-empty and its aliases are plain
    text; an empty alias list is read back as the one alias [""]. *)
Theorem alias_table_round_trip (alias_df : list (string * list string)) :
  (Forall (fun kc => snd kc <> [] /\ forallb plain_alias (snd kc) = true) alias_df ->
   get_structure_aliases (alias_csv_of alias_df) =
   map (fun kc => (fst kc, map Scorer.py_strip_spaces (snd kc))) alias_df) /\
  (forall key, get_structure_aliases (alias_csv_of [(key, [])]) = [(key, [""])]).
Proof.
  split.
  - intros H. unfold get_structure_aliases, alias_csv_of. rewrite map_map.
    apply map_ext_in. intros [k c] Hkc. simpl.
    rewrite Forall_forall in H. destruct (H _ Hkc) as [Hne Hp].
    rewrite parse_alias_cell_plain by assumption. reflexivity.
  - intros key. reflexivity.
Qed.





(** ** Transfer check on the concrete inputs *)

Import TransferExamples.

Lemma ex_insert_by_label_perm x l : Permutation (ex_insert_by_label x l) (x :: l).
Proof.
  induction l as [| y l IH]; simpl; [reflexivity |].
  destruct (String.leb _ _); [reflexivity |].
  rewrite IH. apply perm_swap.
Qed.

Lemma ex_sort_by_field_label_perm l : Permutation (ex_sort_by_field_label l) l.
Proof.
  induction l as [| x l IH]; simpl; [reflexivity |].
  rewrite ex_insert_by_label_perm. apply perm_skip, IH.
Qed.

(** The current rows relevant to the example plan are the two current
    prostate fields. *)
Lemma current_relevant_mosaiq_rows_witness :
  Permutation
    (limit_mosaiq_info_to_current_versions
       (drop_irrelevant_mosaiq_fields ex_sort_by_field_label ex_dicom_table
          ex_mosaiq_table))
    [ex_mosaiq "Prostate" "AP" "1" 0 (PyNum (Fl 42)) (PyNum (Fl 42));
     ex_mosaiq "Prostate" "PA" "2" 0 (PyNum (Fl 42)) PyNone].
Proof.
  refine (Permutation_trans
            (current_relevant_mosaiq_rows ex_sort_by_field_label
               ex_sort_by_field_label_perm ex_dicom_table ex_mosaiq_table) _).
  apply Permutation_refl'. vm_compute. reflexivity.
Defined.

(** Jane Doe's name, MRN and date of birth all match. *)
Lemma verify_basic_patient_info_messages_witness :
  verify_basic_patient_info ex_dicom_table ex_mosaiq_table "123" [] =
  (ROk tt, [st_subheader "Patient:"; st_success "Name: Jane Doe";
            st_success "MRN: 123"; st_success "DOB: 1950-01-31"]).
Proof.
  refine (eq_trans
            (proj2 (proj2 (proj2 (verify_basic_patient_info_messages ex_dicom_table
               ex_mosaiq_table "123" []))) (ex_dicom_row "1" "AP")
               (ex_mosaiq "Prostate" "AP" "1" 0 (PyNum (Fl 42)) (PyNum (Fl 42)))
               (tl ex_mosaiq_table) "1950" "01" "31" "" "1950" "01" "31"
               " 00:00:00" _ _ _ _ _) _).
  - vm_compute. reflexivity.
  - reflexivity.
  - reflexivity.
  - reflexivity.
  - repeat split.
  - vm_compute. reflexivity.
Defined.

(** Staff 42 created the prescription of the example plan. *)
Lemma check_site_approval_rx_outcome_witness :
  check_site_approval ex_staff_initials ex_site_constants ex_mosaiq_table [] =
  (ROk tt, [st_subheader "Approval Status:"; st_success "Site Setup Approved";
            st_success "RX Approved by JD"]).
Proof.
  pose proof (check_site_approval_rx_outcome ex_staff_initials ex_site_constants
                (ex_mosaiq "Prostate" "AP" "1" 0 (PyNum (Fl 42)) (PyNum (Fl 42)))
                (tl ex_mosaiq_table) [] eq_refl eq_refl) as H.
  cbv zeta in H. refine (eq_trans H _). vm_compute. reflexivity.
Defined.

(** Choosing the first prescription and its first field selects field AP,
    whose label 1 occurs twice in the table (current and older version). *)
Lemma select_field_result_witness :
  select_field_for_comparison ex_dicom_table ex_mosaiq_table 0 0
    = ROk (Some "AP", ["1"; "1"], "AP") /\
  (exists label0 labels, ["1"; "1"] = label0 :: labels /\
     exists ir, In ir ex_dicom_table /\ d_field_label (snd ir) = label0 /\
                d_field_name (snd ir) = "AP") /\
  (exists f, Some "AP" = Some f /\
     forall l, In l ["1"; "1"] ->
       exists r, In r ex_mosaiq_table /\ m_field_name r = f /\ m_field_label r = l).
Proof.
  assert (H : select_field_for_comparison ex_dicom_table ex_mosaiq_table 0 0
              = ROk (Some "AP", ["1"; "1"], "AP")) by (vm_compute; reflexivity).
  split; [exact H | exact (select_field_result _ _ _ _ _ _ _ H)].
Defined.

(** On the first three rows, whose labels are all in the DICOM plan, the
    second field of the first prescription can be selected. *)
Lemma select_field_succeeds_witness :
  exists field_selection selected_label dicom_field_selection,
    select_field_for_comparison ex_dicom_table (firstn 3 ex_mosaiq_table) 0 1
    = ROk (field_selection, selected_label, dicom_field_selection).
Proof.
  apply select_field_succeeds.
  - intros r Hr. vm_compute in Hr.
    destruct Hr as [<- | [<- | [<- | []]]]; vm_compute; auto.
  - apply Nat.ltb_lt. vm_compute. reflexivity.
  - intros site Hs. vm_compute in Hs. injection Hs as <-.
    apply Nat.ltb_lt. vm_compute. reflexivity.
Defined.


(** The example alias table reads back unchanged. *)
Lemma alias_table_round_trip_witness :
  get_structure_aliases (alias_csv_of Examples.ex_aliases) =
  [("Liver", ["liver"]); ("Kidney", ["kidney"; "kidneys"])].
Proof.
  refine (eq_trans (proj1 (alias_table_round_trip Examples.ex_aliases) _) _).
  - repeat constructor; vm_compute; discriminate.
  - vm_compute. reflexivity.
Defined.

End TransferCheckFacts.

Module ScorerFrameFacts.
Import Scorer ScorerFrame ScorerFacts.

Section Frame.
Variable dvh_calcs : list (string * DVH).
Variable ALIASES : list (string * list string).
Variable CONSTRAINTS : list (string * list (string * entry)).

Local Abbreviation inner aliases roi :=
  (flat_map (fun sa => if alias_match roi (snd sa) then [(roi, fst sa)] else []) aliases).

Local Abbreviation base df := (match df with None => [] | Some rows => rows end).

Lemma score_structures_no_match aliases roi acc :
  inner aliases roi = [] ->
  score_structures dvh_calcs CONSTRAINTS aliases roi acc = Ok acc.
Proof.
  intros H. rewrite score_structures_pairs, H. reflexivity.
Qed.

Lemma score_rois_no_match rois acc :
  matched_pairs ALIASES rois = [] ->
  score_rois dvh_calcs ALIASES CONSTRAINTS rois acc = Ok acc.
Proof.
  intros H. rewrite score_rois_pairs, H. reflexivity.
Qed.

Lemma score_structures_frame_rows aliases roi df :
  score_structures_frame dvh_calcs CONSTRAINTS aliases roi df =
  match score_structures dvh_calcs CONSTRAINTS aliases roi (base df) with
  | Ok r => Ok (match inner aliases roi with [] => df | _ => Some r end)
  | Err e => Err e
  end.
Proof.
  revert df; induction aliases as [| [s al] aliases IH]; intros df; simpl.
  - reflexivity.
  - destruct (alias_match roi al); simpl; [| apply IH].
    destruct (compare_structure_with_constraints roi s dvh_calcs CONSTRAINTS)
      as [sdf | e]; simpl; [| reflexivity].
    rewrite IH.
    replace (base (concat_frame df sdf)) with (base df ++ sdf)
      by (destruct df; reflexivity).
    destruct (inner aliases roi) as [| p ps] eqn:Hin.
    + rewrite (score_structures_no_match _ _ _ Hin). destruct df; reflexivity.
    + destruct (score_structures _ _ _ _ _); reflexivity.
Qed.

Lemma score_rois_frame_rows rois df :
  score_rois_frame dvh_calcs ALIASES CONSTRAINTS rois df =
  match score_rois dvh_calcs ALIASES CONSTRAINTS rois (base df) with
  | Ok r => Ok (match matched_pairs ALIASES rois with [] => df | _ => Some r end)
  | Err e => Err e
  end.
Proof.
  revert df; induction rois as [| roi rois IH]; intros df; simpl.
  - reflexivity.
  - rewrite score_structures_frame_rows.
    destruct (score_structures dvh_calcs CONSTRAINTS ALIASES roi (base df))
      as [r1 | e] eqn:Hs; simpl; [| reflexivity].
    rewrite IH.
    unfold matched_pairs at 2. simpl. fold (matched_pairs ALIASES rois).
    destruct (inner ALIASES roi) as [| p ps] eqn:Hin.
    + rewrite (score_structures_no_match _ _ _ Hin) in Hs.
      injection Hs as <-. simpl. reflexivity.
    + simpl. destruct (score_rois dvh_calcs ALIASES CONSTRAINTS rois r1)
        as [r | e] eqn:Hr; [| reflexivity].
      destruct (matched_pairs ALIASES rois) eqn:Hmp; [| reflexivity].
      rewrite (score_rois_no_match _ _ Hmp) in Hr. injection Hr as <-.
      reflexivity.
Qed.

(** X10: [main] with [constraints_df] as the frame it is: when no ROI of
    [dvh_calcs] matches any structure's aliases, [constraints_df] stays the
    column-less [pd.DataFrame()] and [calculate_total_score] raises
    [KeyError("Type")]; otherwise the result is that of the list-based
    scoring ([score_main]). *)
Theorem score_main_no_match_key_error :
  score_main_frame dvh_calcs ALIASES CONSTRAINTS =
  match matched_pairs ALIASES (map fst dvh_calcs) with
  | [] => Err (KeyError "Type")
  | _ => score_main dvh_calcs ALIASES CONSTRAINTS
  end.
Proof.
  unfold score_main_frame, score_main. rewrite score_rois_frame_rows. simpl.
  destruct (matched_pairs ALIASES (map fst dvh_calcs)) eqn:Hmp.
  - rewrite (score_rois_no_match _ _ Hmp). reflexivity.
  - destruct (score_rois dvh_calcs ALIASES CONSTRAINTS (map fst dvh_calcs) []);
      reflexivity.
Qed.

Lemma score_main_frame_eq :
  score_main_frame dvh_calcs ALIASES CONSTRAINTS =
  match matched_pairs ALIASES (map fst dvh_calcs) with
  | [] => Err (KeyError "Type")
  | _ => score_main dvh_calcs ALIASES CONSTRAINTS
  end.
Proof.
  unfold score_main_frame, score_main. rewrite score_rois_frame_rows. simpl.
  destruct (matched_pairs ALIASES (map fst dvh_calcs)) eqn:Hmp.
  - rewrite (score_rois_no_match _ _ Hmp). reflexivity.
  - destruct (score_rois dvh_calcs ALIASES CONSTRAINTS (map fst dvh_calcs) []);
      reflexivity.
Qed.

End Frame.

(** C8: when [main]'s constraint check completes (which needs some ROI to
    match some structure), the table is one block per matched
    [(roi, structure)] pair, each ending in exactly one ["Average Score"]
    row whose score is the mean of the block's constraint scores, followed
    by exactly one ["Total Score"] row whose score is the sum of the
    average scores. *)
Theorem total_and_average_scores (dvh_calcs : list (string * DVH))
    (ALIASES : list (string * list string))
    (CONSTRAINTS : list (string * list (string * entry)))
    (tbl : list ConstraintRow)
    (H : score_main_frame dvh_calcs ALIASES CONSTRAINTS = Ok tbl) :
  matched_pairs ALIASES (map fst dvh_calcs) <> [] /\
  exists blocks total,
    tbl = List.concat blocks ++ [total] /\
    Forall2 scored_block (matched_pairs ALIASES (map fst dvh_calcs)) blocks /\
    Type_ total = "Total Score" /\
    Score total = Qsum (map (fun b => Score (last b total)) blocks) /\
    List.length (filter (fun r => String.eqb (Type_ r) "Total Score") tbl) = 1%nat.
Proof.
  rewrite score_main_frame_eq in H.
  destruct (matched_pairs ALIASES (map fst dvh_calcs)) as [| p ps] eqn:Hmp;
    [discriminate |].
  split; [discriminate |].
  pose proof (score_main_blocks _ _ _ _ H) as Hb. rewrite Hmp in Hb. exact Hb.
Qed.

(** C8 witness: " Liver " scores Mean -2 and V% 5 (average 3/2),
    "Kidneys" scores Max -1 (average -1), "liver_ptv" is not scored;
    the total is 1/2. *)
Lemma total_and_average_scores_witness :
  exists tbl,
    score_main_frame Examples.ex_dvh_calcs Examples.ex_aliases
      Examples.ex_constraints = Ok tbl /\
    map (fun r => Qred (Score r))
        (filter (fun r => negb (String.eqb (Type_ r) "Mean") &&
                                negb (String.eqb (Type_ r) "Max") &&
                                negb (String.eqb (Type_ r) "V%")) tbl)
      = [3 # 2; -1; 1 # 2]%Q /\
    matched_pairs Examples.ex_aliases (map fst Examples.ex_dvh_calcs) <> [] /\
    exists blocks total,
      tbl = List.concat blocks ++ [total] /\
      Forall2 scored_block
        (matched_pairs Examples.ex_aliases (map fst Examples.ex_dvh_calcs)) blocks /\
      Type_ total = "Total Score" /\
      Score total = Qsum (map (fun b => Score (last b total)) blocks) /\
      List.length (filter (fun r => String.eqb (Type_ r) "Total Score") tbl) = 1%nat.
Proof.
  eexists. split; [vm_compute; reflexivity |]. split; [vm_compute; reflexivity |].
  apply (total_and_average_scores _ _ Examples.ex_constraints).
  vm_compute. reflexivity.
Defined.


End ScorerFrameFacts.

Module ScorerRowFacts.
Import Scorer.
Local Open Scope Q_scope.

Lemma constraint_rows_nil roi structure dvh type c :
  constraint_rows roi structure dvh type c = [] <->
  c = Placeholder \/ c = Thresholds [] \/ ~ In type ["Mean"; "Max"; "V%"; "D%"].
Proof.
  destruct c as [| ts]; simpl.
  - split; [auto | reflexivity].
  - destruct (String.eqb type "Mean") eqn:E1;
      [apply String.eqb_eq in E1; subst |].
    { destruct ts; simpl; split; try discriminate; try tauto.
      intros [H | [H | H]]; [discriminate | discriminate | tauto]. }
    destruct (String.eqb type "Max") eqn:E2;
      [apply String.eqb_eq in E2; subst |].
    { destruct ts; simpl; split; try discriminate; try tauto.
      intros [H | [H | H]]; [discriminate | discriminate | tauto]. }
    destruct (String.eqb type "V%") eqn:E3;
      [apply String.eqb_eq in E3; subst |].
    { destruct ts; simpl; split; try discriminate; try tauto.
      intros [H | [H | H]]; [discriminate | discriminate | tauto]. }
    destruct (String.eqb type "D%") eqn:E4;
      [apply String.eqb_eq in E4; subst |].
    { destruct ts; simpl; split; try discriminate; try tauto.
      intros [H | [H | H]]; [discriminate | discriminate | tauto]. }
    apply String.eqb_neq in E1, E2, E3, E4.
    split; [intros _; right; right | reflexivity].
    simpl. intros [H | [H | [H | [H | []]]]]; congruence.
Qed.

Lemma flat_map_nil {A B} (f : A -> list B) l :
  flat_map f l = [] <-> Forall (fun x => f x = []) l.
Proof.
  induction l as [| x l IH]; simpl; [split; [constructor | reflexivity] |].
  rewrite Forall_cons_iff, <- IH. split.
  - intros H. apply app_eq_nil in H. exact H.
  - intros [-> ->]. reflexivity.
Qed.

(** X11: [compare_structure_with_constraints] raises [IndexError] exactly when
    the structure has constraints and the ROI has a DVH but no constraint
    yields a row: each is the placeholder, an empty threshold list, or of
    a type other than Mean, Max, V% and D%.  A missing structure or ROI
    raises [KeyError] instead. *)
Theorem compare_index_error (roi structure : string)
    (dvh_calcs : list (string * DVH))
    (CONSTRAINTS : list (string * list (string * entry))) :
  compare_structure_with_constraints roi structure dvh_calcs CONSTRAINTS = Err IndexError
  <->
  exists sc dvh,
    getitem CONSTRAINTS structure = Ok sc /\ getitem dvh_calcs roi = Ok dvh /\
    Forall (fun tc => snd tc = Placeholder \/ snd tc = Thresholds [] \/
                      ~ In (fst tc) ["Mean"; "Max"; "V%"; "D%"]) sc.
Proof.
  unfold compare_structure_with_constraints, getitem.
  destruct (lookup structure CONSTRAINTS) as [sc |]; simpl.
  2:{ split; [discriminate | intros [sc [dvh [H _]]]; discriminate]. }
  destruct (lookup roi dvh_calcs) as [dvh |]; simpl.
  2:{ split; [discriminate | intros [sc' [dvh [_ [H _]]]]; discriminate]. }
  assert (Hiff : flat_map (fun tc => constraint_rows roi structure dvh (fst tc) (snd tc)) sc
                 = [] <->
                 Forall (fun tc => snd tc = Placeholder \/ snd tc = Thresholds [] \/
                                   ~ In (fst tc) ["Mean"; "Max"; "V%"; "D%"]) sc).
  { rewrite flat_map_nil. split; apply Forall_impl; intros tc;
      apply constraint_rows_nil. }
  unfold calculate_average_OAR_score.
  destruct (flat_map _ sc) as [| r rs] eqn:Hdf.
  - split; [intros _ | reflexivity]. exists sc, dvh.
    split; [reflexivity | split; [reflexivity |]]. apply Hiff. reflexivity.
  - split; [discriminate |]. intros [sc' [dvh' [H1 [H2 H3]]]].
    injection H1 as <-. injection H2 as <-. apply Hiff in H3. discriminate.
Qed.

(** X12: The score of each constraint row of [compare_structure_with_constraints]
    (every row but the average): Mean and Max rows score the dose
    threshold minus the DVH's mean or max dose; V% rows add the volume
    threshold (as a percentage) minus the percentage of the volume that
    receives the threshold dose; D% rows add the volume threshold taken as
    a percentage of the structure's volume, minus that same percentage
    received. *)
Theorem constraint_row_score (roi structure : string)
    (dvh_calcs : list (string * DVH))
    (CONSTRAINTS : list (string * list (string * entry)))
    (dvh : DVH) (block : list ConstraintRow) (r : ConstraintRow)
    (Hdvh : getitem dvh_calcs roi = Ok dvh)
    (Hok : compare_structure_with_constraints roi structure dvh_calcs CONSTRAINTS
           = Ok block)
    (Hr : In r block) (Havg : Type_ r <> "Average Score") :
  exists d, Dose r = Num d /\
  ((Type_ r = "Mean" /\ Volume r = Dash /\ Actual_Dose r = Num (dvh_mean dvh) /\
    Actual_Volume r = Dash /\ Score r = d - dvh_mean dvh) \/
   (Type_ r = "Max" /\ Volume r = Dash /\ Actual_Dose r = Num (dvh_max dvh) /\
    Actual_Volume r = Dash /\ Score r = d - dvh_max dvh) \/
   (exists v, Type_ r = "V%" /\ Volume r = Num v /\
    Actual_Dose r = Num (dose_constraint dvh v) /\
    Actual_Volume r = Num (volume_constraint_Gy dvh d / dvh_volume dvh * 100) /\
    Score r = (d - dose_constraint dvh v) +
              (v - volume_constraint_Gy dvh d / dvh_volume dvh * 100)) \/
   (exists v, Type_ r = "D%" /\ Volume r = Num v /\
    Actual_Dose r = Num (dose_constraint_cm3 dvh v) /\
    Actual_Volume r = Num (volume_constraint_Gy dvh d / dvh_volume dvh * 100) /\
    Score r = (d - dose_constraint_cm3 dvh v) +
              (v / dvh_volume dvh * 100 -
               volume_constraint_Gy dvh d / dvh_volume dvh * 100))).
Proof.
  unfold compare_structure_with_constraints in Hok. rewrite Hdvh in Hok.
  destruct (getitem CONSTRAINTS structure) as [sc |]; simpl in Hok; [| discriminate].
  unfold calculate_average_OAR_score in Hok.
  destruct (flat_map _ sc) as [| r0 rs] eqn:Hdf; [discriminate |].
  injection Hok as <-.
  rewrite ?app_comm_cons in Hr.
  apply in_app_or in Hr. destruct Hr as [Hr | [<- | []]]; [| contradiction].
  rewrite <- Hdf in Hr. apply in_flat_map in Hr. destruct Hr as [[type c] [_ Hr]].
  simpl in Hr. destruct c as [| ts]; [destruct Hr |]. simpl in Hr.
  destruct (String.eqb type "Mean");
    [apply in_map_iff in Hr; destruct Hr as [t [<- _]]; simpl;
     eexists; split; [reflexivity |]; left; auto |].
  destruct (String.eqb type "Max");
    [apply in_map_iff in Hr; destruct Hr as [t [<- _]]; simpl;
     eexists; split; [reflexivity |]; right; left; auto |].
  destruct (String.eqb type "V%");
    [apply in_map_iff in Hr; destruct Hr as [t [<- _]]; simpl;
     eexists; split; [reflexivity |]; right; right; left; eexists; auto 6 |].
  destruct (String.eqb type "D%");
    [apply in_map_iff in Hr; destruct Hr as [t [<- _]]; simpl;
     eexists; split; [reflexivity |]; right; right; right; eexists; auto 6 |].
  destruct Hr.
Qed.


(** The V% row of the example liver constraints. *)
Lemma constraint_row_score_witness :
  exists block r,
    getitem Examples.ex_dvh_calcs " Liver " = Ok Examples.ex_dvh /\
    compare_structure_with_constraints " Liver " "Liver" Examples.ex_dvh_calcs
      Examples.ex_constraints = Ok block /\
    In r block /\ Type_ r = "V%" /\
  exists d, Dose r = Num d /\
  ((Type_ r = "Mean" /\ Volume r = Dash /\ Actual_Dose r = Num (dvh_mean Examples.ex_dvh) /\
    Actual_Volume r = Dash /\ Score r = d - dvh_mean Examples.ex_dvh) \/
   (Type_ r = "Max" /\ Volume r = Dash /\ Actual_Dose r = Num (dvh_max Examples.ex_dvh) /\
    Actual_Volume r = Dash /\ Score r = d - dvh_max Examples.ex_dvh) \/
   (exists v, Type_ r = "V%" /\ Volume r = Num v /\
    Actual_Dose r = Num (dose_constraint Examples.ex_dvh v) /\
    Actual_Volume r = Num (volume_constraint_Gy Examples.ex_dvh d /
                           dvh_volume Examples.ex_dvh * 100) /\
    Score r = (d - dose_constraint Examples.ex_dvh v) +
              (v - volume_constraint_Gy Examples.ex_dvh d /
                   dvh_volume Examples.ex_dvh * 100)) \/
   (exists v, Type_ r = "D%" /\ Volume r = Num v /\
    Actual_Dose r = Num (dose_constraint_cm3 Examples.ex_dvh v) /\
    Actual_Volume r = Num (volume_constraint_Gy Examples.ex_dvh d /
                           dvh_volume Examples.ex_dvh * 100) /\
    Score r = (d - dose_constraint_cm3 Examples.ex_dvh v) +
              (v / dvh_volume Examples.ex_dvh * 100 -
               volume_constraint_Gy Examples.ex_dvh d / dvh_volume Examples.ex_dvh * 100))).
Proof.
  assert (Hdvh : getitem Examples.ex_dvh_calcs " Liver " = Ok Examples.ex_dvh)
    by reflexivity.
  destruct (compare_structure_with_constraints " Liver " "Liver"
              Examples.ex_dvh_calcs Examples.ex_constraints) as [block | e] eqn:Hok;
    pose proof Hok as Hb; vm_compute in Hb; [| discriminate].
  injection Hb as Hb. subst block.
  eexists _, _. split; [exact Hdvh |]. split; [exact Hok |].
  split; [right; left; reflexivity |]. split; [reflexivity |].
  apply (constraint_row_score _ _ _ _ _ _ _ Hdvh Hok).
  - right; left; reflexivity.
  - apply String.eqb_neq. reflexivity.
Defined.

End ScorerRowFacts.

Module BatchRunFacts.
Import Batch BatchFacts.
Local Open Scope Z_scope.

Lemma working_table_check_nil D : exists e, working_table_check [] D = Err e.
Proof. eexists. reflexivity. Qed.

Lemma collapse_ok_all values column v x :
  _collapse_column_to_single_value values column = Ok v -> In x values -> x = v.
Proof.
  unfold _collapse_column_to_single_value.
  destruct (unique values) as [| u [| u' us]] eqn:Hu; try discriminate.
  intros [= <-] Hx.
  assert (Hin : In x (unique values)).
  { unfold unique. apply unique_aux_In. simpl. tauto. }
  rewrite Hu in Hin. destruct Hin as [<- | []]. reflexivity.
Qed.

Section Run.
Variable calc : string -> string -> Z -> Z * Z -> Z -> except Locator.detection.
Variable database_directory : string.
Variables bb_diameter penumbra : Z.

Local Abbreviation full p := (_get_full_image_path database_directory p).
Local Abbreviation get_results :=
  (get_results_for_image calc database_directory bb_diameter penumbra).
Local Abbreviation process := (process_row calc database_directory bb_diameter penumbra).
Local Abbreviation loop := (main_loop calc database_directory bb_diameter penumbra).
Local Abbreviation run := (run_calculation calc database_directory bb_diameter penumbra).

Lemma detect_all_results p algs e log ds log' :
  mapM (fun algorithm =>
      d <- calculate_wlutz calc bb_diameter penumbra (full p) algorithm e ;;
      ret (mk_result p algorithm d)) algs log = (Ok ds, log') ->
  forall r, In r ds -> exists a d, r = mk_result p a d.
Proof.
  revert log ds; induction algs as [| a algs IH]; intros log ds H; simpl in H.
  - inversion H; subst. intros r [].
  - unfold bind, ret, calculate_wlutz in H.
    destruct (calc (full p) a bb_diameter e penumbra) as [d |]; [| discriminate].
    destruct (mapM _ algs (log ++ [(full p, a, e)])) as [[ds' |] log''] eqn:Hm;
      [| discriminate].
    inversion H; subst. intros r [<- | Hr]; [eauto | exact (IH _ _ Hm r Hr)].
Qed.

(** What a row computed afresh contains. *)
Lemma recompute_ok D algs i p log rs log1 :
  (row <- lift (row_at D i) ;; get_results p algs (width row, length row)) log
    = (Ok rs, log1) ->
  (forall a, In a algs -> exists r, In r rs /\ algorithm r = a) /\
  (forall r, In r rs -> r_filepath r = p /\ exists a d, r = mk_result p a d).
Proof.
  unfold bind at 1, lift at 1.
  destruct (row_at D i) as [row |]; [| discriminate]. intros Hg.
  destruct (get_results_ok calc database_directory bb_diameter penumbra
              _ _ _ _ _ _ Hg) as [_ [_ Hf]].
  unfold get_results_for_image, bind at 1 in Hg.
  destruct (mapM _ algs log) as [[ds |] log''] eqn:Hm; [| discriminate].
  assert (Hds : rs = ds) by (destruct ds; [discriminate | injection Hg as <-; reflexivity]).
  subst ds. split.
  - intros a Ha. destruct (Forall2_In_l _ _ _ a Hf Ha) as [r [Hr [_ Hra]]]. eauto.
  - intros r Hr. destruct (Forall2_In_r _ _ _ r Hf Hr) as [a [_ [Hrp _]]].
    split; [exact Hrp | exact (detect_all_results _ _ _ _ _ _ Hm r Hr)].
Qed.

(** What a processed row guarantees, whether its results were persisted or
    computed afresh. *)
Definition row_ok (prev : option Persisted) (D : list Meta) (algs : list string)
    (p : string) (rs : list Res) : Prop :=
  rs <> [] /\ working_table_check rs D = Ok tt /\
  (forall a, In a algs -> exists r, In r rs /\ algorithm r = a) /\
  (forall r, In r rs -> r_filepath r = p /\
     ((exists f c, prev = Some f /\ In (r, c) (rows f)) \/
      (exists a d, r = mk_result p a d))).

Lemma process_ok prev D algs i p log rs log1 :
  process prev D algs i p log = (Ok rs, log1) -> row_ok prev D algs p rs.
Proof.
  unfold process_row. unfold bind at 1.
  match goal with
  | |- context [match ?m log with _ => _ end] =>
      destruct (m log) as [[rs0 |] log0] eqn:Hr; [| discriminate]
  end.
  unfold bind, lift, ret.
  destruct (working_table_check rs0 D) as [[] |] eqn:Hw; [| discriminate].
  intros H; inversion H; subst rs log1; clear H.
  split.
  { intros ->. destruct (working_table_check_nil D) as [e He]. congruence. }
  split; [exact Hw |].
  destruct prev as [f |].
  - unfold bind at 1, lift at 1 in Hr.
    destruct (select_results f p) as [sel |] eqn:Hs; [| discriminate].
    unfold select_results in Hs.
    destruct (find _ RESULTS_DATA_COLUMNS); [discriminate |].
    injection Hs as <-.
    destruct (already_calculated algs _) eqn:Hac.
    + unfold ret in Hr. injection Hr as <- _. split.
      * intros a Ha. unfold already_calculated in Hac.
        rewrite forallb_forall in Hac. specialize (Hac a Ha).
        apply existsb_exists in Hac. destruct Hac as [r [Hr He]].
        apply String.eqb_eq in He. eauto.
      * intros r Hr. apply in_map_iff in Hr. destruct Hr as [[r' c] [<- Hc]].
        apply filter_In in Hc. destruct Hc as [Hc He]. simpl in He |- *.
        apply String.eqb_eq in He. split; [exact He |]. left. eauto.
    + destruct (recompute_ok _ _ _ _ _ _ _ Hr) as [Hc Hp]. split; [exact Hc |].
      intros r Hr'. destruct (Hp r Hr') as [Hrp Hm]. auto.
  - destruct (recompute_ok _ _ _ _ _ _ _ Hr) as [Hc Hp]. split; [exact Hc |].
    intros r Hr'. destruct (Hp r Hr') as [Hrp Hm]. auto.
Qed.

Lemma loop_ok prev D algs i ps acc log out log' :
  loop prev D algs i ps acc log = (Ok out, log') ->
  exists rss, out = acc ++ List.concat rss /\ Forall2 (row_ok prev D algs) ps rss.
Proof.
  revert i acc log; induction ps as [| p ps IH]; intros i acc log H; simpl in H.
  - inversion H; subst. exists []. rewrite app_nil_r. split; constructor.
  - unfold bind at 1 in H.
    destruct (process prev D algs i p log) as [[rs |] log1] eqn:Hp; [| discriminate].
    destruct (IH _ _ _ H) as [rss [Hout Hf]].
    exists (rs :: rss). simpl. rewrite Hout, app_assoc. split; [reflexivity |].
    constructor; [exact (process_ok _ _ _ _ _ _ _ _ Hp) | exact Hf].
Qed.

Lemma run_ok prev D algs log f log' :
  run prev D algs log = (Ok f, log') ->
  exists collated,
    D <> [] /\
    (exists rss, collated = List.concat rss /\
                 Forall2 (row_ok prev D algs) (rev (map filepath D)) rss) /\
    rows f = drop_duplicates (merge collated D ++
                              match prev with Some pf => rows pf | None => [] end) /\
    columns f = (RESULTS_DATA_COLUMNS ++ META_COLUMNS) ++
      filter (fun c => negb (existsb (String.eqb c) (RESULTS_DATA_COLUMNS ++ META_COLUMNS)))
             (match prev with Some pf => columns pf | None => [] end).
Proof.
  unfold run_calculation, bind at 1.
  destruct (loop prev D algs 0 (rev (map filepath D)) [] log)
    as [[collated |] log1] eqn:Hl; [| discriminate].
  destruct D as [| m D']; [discriminate |].
  intros H. inversion H; subst f. clear H.
  exists collated. split; [discriminate |].
  destruct (loop_ok _ _ _ _ _ _ _ _ _ Hl) as [rss [Hc Hf]].
  split; [exists rss; split; [exact Hc | exact Hf] |].
  split; reflexivity.
Qed.

(** X13: A completed run keeps every row and every column of the persisted file
    it started from in the file it writes. *)
Theorem run_keeps_persisted (prev : Persisted) (D : list Meta) (algs : list string)
    (log log' : list Call) (f : Persisted)
    (Hrun : run (Some prev) D algs log = (Ok f, log')) :
  incl (rows prev) (rows f) /\ incl (columns prev) (columns f).
Proof.
  destruct (run_ok _ _ _ _ _ _ Hrun) as [collated [_ [_ [Hrows Hcols]]]].
  split.
  - intros x Hx. rewrite Hrows. apply drop_duplicates_In, in_or_app. right. exact Hx.
  - intros c Hc. rewrite Hcols. apply in_or_app.
    destruct (existsb (String.eqb c) (RESULTS_DATA_COLUMNS ++ META_COLUMNS)) eqn:He.
    + left. apply existsb_exists in He. destruct He as [c' [Hc' Heq]].
      apply String.eqb_eq in Heq. subst. exact Hc'.
    + right. apply filter_In. rewrite He. auto.
Qed.

(** X14: A completed run writes, for every dataset row and every selected
    algorithm, a row pairing a result of that algorithm for the row's image
    with that dataset row. *)
Theorem run_covers_dataset (prev : option Persisted) (D : list Meta)
    (algs : list string) (log log' : list Call) (f : Persisted)
    (Hrun : run prev D algs log = (Ok f, log')) :
  forall m a, In m D -> In a algs ->
  exists r, In (r, m) (rows f) /\ algorithm r = a /\ r_filepath r = filepath m.
Proof.
  intros m a Hm Ha.
  destruct (run_ok _ _ _ _ _ _ Hrun) as [collated [_ [[rss [Hc Hf]] [Hrows _]]]].
  assert (Hp : In (filepath m) (rev (map filepath D)))
    by (apply (proj1 (In_rev _ _)), in_map; exact Hm).
  destruct (Forall2_In_l _ _ _ _ Hf Hp) as [rs [Hrs [_ [_ [Hcov Hprov]]]]].
  destruct (Hcov a Ha) as [r [Hr Hra]].
  destruct (Hprov r Hr) as [Hrp _].
  exists r. split; [| auto].
  rewrite Hrows. apply drop_duplicates_In, in_or_app. left.
  apply merge_In. split; [| split; [exact Hm | symmetry; exact Hrp]].
  rewrite Hc. apply in_concat. eauto.
Qed.

(** X15: Two dataset rows for the same image with different treatments or
    different ports make every run fail: the check that each image has a
    single treatment and port raises before the file is written. *)
Theorem run_rejects_conflicting_rows (prev : option Persisted) (D : list Meta)
    (algs : list string) (m1 m2 : Meta)
    (H1 : In m1 D) (H2 : In m2 D) (Hpath : filepath m1 = filepath m2)
    (Hdiff : treatment m1 <> treatment m2 \/ port m1 <> port m2) :
  forall log f log', run prev D algs log <> (Ok f, log').
Proof.
  intros log f log' Hrun.
  destruct (run_ok _ _ _ _ _ _ Hrun) as [collated [_ [[rss [_ Hf]] _]]].
  assert (Hp : In (filepath m1) (rev (map filepath D)))
    by (apply (proj1 (In_rev _ _)), in_map; exact H1).
  destruct (Forall2_In_l _ _ _ _ Hf Hp) as [rs [_ [Hne [Hw [_ Hprov]]]]].
  assert (Hq : forall r, In r rs -> r_filepath r = filepath m1)
    by (intros r Hr; exact (proj1 (Hprov r Hr))).
  unfold working_table_check, ebind in Hw.
  destruct (_collapse_column_to_single_value
              (map (fun r => treatment (snd r)) (merge rs D)) "treatment")
    as [v |] eqn:Ht; [| discriminate].
  destruct (_collapse_column_to_single_value
              (map (fun r => port (snd r)) (merge rs D)) "port")
    as [w |] eqn:Hpo; [| discriminate].
  assert (Hin : forall sel (m : Meta), In m D -> filepath m = filepath m1 ->
                In (sel m) (wtc_values sel rs D)).
  { intros sel m Hm Hmp. apply (wtc_values_In sel rs D (filepath m1)); auto. eauto. }
  destruct Hdiff as [Hd | Hd]; apply Hd.
  - rewrite (collapse_ok_all _ _ _ _ Ht (Hin treatment m1 H1 eq_refl)).
    rewrite (collapse_ok_all _ _ _ _ Ht (Hin treatment m2 H2 (eq_sym Hpath))).
    reflexivity.
  - rewrite (collapse_ok_all _ _ _ _ Hpo (Hin port m1 H1 eq_refl)).
    rewrite (collapse_ok_all _ _ _ _ Hpo (Hin port m2 H2 (eq_sym Hpath))).
    reflexivity.
Qed.

(** X16: Every result row written keeps [diff_x] and [diff_y] equal to the
    field centre minus the BB centre (NaN when either is NaN), provided
    the rows of the persisted file it started from do. *)
Theorem run_keeps_diff_invariant (prev : option Persisted) (D : list Meta)
    (algs : list string) (log log' : list Call) (f : Persisted)
    (Hprev : forall pf, prev = Some pf ->
       Forall (fun c => diff_x (fst c) = fsub (field_centre_x (fst c)) (bb_centre_x (fst c)) /\
                        diff_y (fst c) = fsub (field_centre_y (fst c)) (bb_centre_y (fst c)))
              (rows pf))
    (Hrun : run prev D algs log = (Ok f, log')) :
  Forall (fun c => diff_x (fst c) = fsub (field_centre_x (fst c)) (bb_centre_x (fst c)) /\
                   diff_y (fst c) = fsub (field_centre_y (fst c)) (bb_centre_y (fst c)))
         (rows f).
Proof.
  destruct (run_ok _ _ _ _ _ _ Hrun) as [collated [_ [[rss [Hc Hf]] [Hrows _]]]].
  apply Forall_forall. intros [r m] Hx. simpl.
  rewrite Hrows in Hx. apply drop_duplicates_In, in_app_or in Hx.
  destruct Hx as [Hx | Hx].
  - apply merge_In in Hx. destruct Hx as [Hr _].
    rewrite Hc in Hr. apply in_concat in Hr. destruct Hr as [rs [Hrs Hr]].
    destruct (Forall2_In_r _ _ _ _ Hf Hrs) as [p [_ [_ [_ [_ Hprov]]]]].
    destruct (Hprov r Hr) as [_ [[pf [c [Hpf Hc']]] | [a [[[fc rot] bc] ->]]]].
    + specialize (Hprev pf Hpf). rewrite Forall_forall in Hprev.
      exact (Hprev (r, c) Hc').
    + simpl. split; reflexivity.
  - destruct prev as [pf |]; [| destruct Hx].
    specialize (Hprev pf eq_refl). rewrite Forall_forall in Hprev.
    exact (Hprev (r, m) Hx).
Qed.

End Run.

(** The run over the example persisted file keeps its stale row and its
    columns. *)
Lemma run_keeps_persisted_witness :
  incl (rows Examples.ex_prev) (rows Examples.ex_first) /\
  incl (columns Examples.ex_prev) (columns Examples.ex_first).
Proof.
  apply (run_keeps_persisted Examples.ex_calc "/db" 8 2 Examples.ex_prev
           Examples.ex_dataset Examples.ex_algs []
           (snd (Examples.ex_run (Some Examples.ex_prev) Examples.ex_dataset))).
  vm_compute. reflexivity.
Defined.

(** The first example run has a PyLinac row for [a.jpg]. *)
Lemma run_covers_dataset_witness :
  exists r, In (r, Examples.ex_row "a.jpg" 0 20) (rows Examples.ex_first) /\
            algorithm r = "PyLinac" /\ r_filepath r = "a.jpg".
Proof.
  apply (run_covers_dataset Examples.ex_calc "/db" 8 2 (Some Examples.ex_prev)
           Examples.ex_dataset Examples.ex_algs []
           (snd (Examples.ex_run (Some Examples.ex_prev) Examples.ex_dataset))).
  - vm_compute. reflexivity.
  - left. reflexivity.
  - right. left. reflexivity.
Defined.

(** The run on a dataset listing [a.jpg] under two treatments fails. *)
Lemma run_rejects_conflicting_rows_witness :
  match fst (run_calculation Examples.ex_calc "/db" 8 2 None
               TransferExamples.ex_conflicting_dataset Examples.ex_algs []) with
  | Ok _ => False
  | Err _ => True
  end.
Proof.
  destruct (run_calculation Examples.ex_calc "/db" 8 2 None
              TransferExamples.ex_conflicting_dataset Examples.ex_algs [])
    as [[f | e] log'] eqn:Hrun; [| exact I].
  exact (run_rejects_conflicting_rows Examples.ex_calc "/db" 8 2 None
           TransferExamples.ex_conflicting_dataset Examples.ex_algs
           (Examples.ex_row "a.jpg" 0 20)
           {| filepath := "a.jpg"; treatment := "T2"; port := "P1";
              gantry := 90; collimator := 0; width := 20; length := 20 |}
           (or_introl eq_refl) (or_intror (or_introl eq_refl)) eq_refl
           (or_introl (proj1 (String.eqb_neq "T1" "T2") eq_refl)) [] f log' Hrun).
Defined.

(** The first example run keeps [diff = field_centre - bb_centre] on every
    row. *)
Lemma run_keeps_diff_invariant_witness :
  Forall (fun c => diff_x (fst c) = fsub (field_centre_x (fst c)) (bb_centre_x (fst c)) /\
                   diff_y (fst c) = fsub (field_centre_y (fst c)) (bb_centre_y (fst c)))
         (rows Examples.ex_first).
Proof.
  apply (run_keeps_diff_invariant Examples.ex_calc "/db" 8 2 (Some Examples.ex_prev)
           Examples.ex_dataset Examples.ex_algs []
           (snd (Examples.ex_run (Some Examples.ex_prev) Examples.ex_dataset))).
  - intros pf Hpf. injection Hpf as <-.
    repeat constructor.
  - vm_compute. reflexivity.
Defined.

End BatchRunFacts.

Module LocatorResultFacts.
Import Locator.

Section Result.
Variables Img Field : Type.
Variable load : string -> Img * Field.
Variable com : Img -> float * float.
Variable refining :
  Field -> Z * Z -> Z -> float * float -> except ((float * float) * float).
Variable optimise :
  Field -> Z -> Z * Z -> Z -> float * float -> float -> except (float * float).
Variable run_wlutz :
  Field -> Z * Z -> Z -> float * float -> float ->
  except ((float * float) * (float * float)).

(** X17: A detection returned by [_calculate_wlutz] carries the rotation found
    by field refinement (NaN when refinement raised [ValueError]), whatever
    the algorithm; the algorithm is PyMedPhys or PyLinac, and PyMedPhys
    returns the refined field centre itself.  Any other algorithm name
    raises [KeyError] once the input parameters are computed. *)
Theorem calculate_wlutz_result (image_path algorithm : string) (bb_diameter : Z)
    (edge_lengths : Z * Z) (penumbra : Z) :
  (forall fc rot bc,
     _calculate_wlutz Img Field load com refining optimise run_wlutz
       image_path algorithm bb_diameter edge_lengths penumbra = Ok (fc, rot, bc) ->
     exists fc0,
       _get_pymedphys_field_centre_and_rotation Img Field load com refining
         image_path edge_lengths penumbra = Ok (fc0, rot) /\
       ((algorithm = "PyMedPhys" /\ fc = fc0) \/ algorithm = "PyLinac")) /\
  (forall p, algorithm <> "PyMedPhys" -> algorithm <> "PyLinac" ->
     _get_wlutz_input_parameters Img Field load com refining image_path
       bb_diameter edge_lengths penumbra = Ok p ->
     _calculate_wlutz Img Field load com refining optimise run_wlutz
       image_path algorithm bb_diameter edge_lengths penumbra =
     Err (KeyError algorithm)).
Proof.
  unfold _calculate_wlutz, _get_wlutz_input_parameters.
  destruct (load image_path) as [image field] eqn:Hl.
  destruct (_get_pymedphys_field_centre_and_rotation Img Field load com refining
              image_path edge_lengths penumbra) as [[fc0 rot0] | e] eqn:Hg;
    simpl.
  2:{ split; [intros; discriminate | intros; discriminate]. }
  rewrite LocatorFacts.py_float_eqb_nan_r. simpl.
  unfold getitem. simpl. split.
  - intros fc rot bc H.
    destruct (String.eqb algorithm "PyMedPhys") eqn:E1.
    + apply String.eqb_eq in E1. subst algorithm. simpl in H.
      unfold _pymedphys_wlutz_calculate in H. simpl in H.
      destruct (optimise field bb_diameter edge_lengths penumbra fc0 rot0)
        as [bb | [k | msg |]]; try discriminate; injection H as <- <- _;
        exists fc0; split; auto.
    + destruct (String.eqb algorithm "PyLinac") eqn:E2; [| discriminate].
      apply String.eqb_eq in E2. subst algorithm.
      unfold _pylinac_wlutz_calculate in H. simpl in H.
      destruct (run_wlutz field edge_lengths penumbra fc0 rot0)
        as [[fc' bc'] | [k | msg |]]; try discriminate; injection H as _ <- _;
        exists fc0; split; auto.
  - intros p H1 H2 _.
    apply String.eqb_neq in H1, H2. rewrite H1, H2. reflexivity.
Qed.

End Result.

(** With the example collaborators, an unknown algorithm name is a
    [KeyError]. *)
Lemma calculate_wlutz_result_witness :
  Examples.ex_calculate_wlutz "a.jpg" "Other" 8%Z (20, 20)%Z 2%Z = Err (KeyError "Other").
Proof.
  eapply (proj2 (calculate_wlutz_result unit unit Examples.ex_load
                   Examples.ex_centre_of_mass Examples.ex_refining
                   Examples.ex_optimise_bb Examples.ex_run_wlutz
                   "a.jpg" "Other" 8%Z (20, 20)%Z 2%Z)).
  - apply String.eqb_neq. reflexivity.
  - apply String.eqb_neq. reflexivity.
  - reflexivity.
Defined.

End LocatorResultFacts.
